(** * Session setup tasks: option/data backup and restore, keep-alive pinger

    Shallow embedding of
    [gui/backend/gui_plugin/core/dbms/DbSessionSetupTask.py]:
    the classes [DbSessionSetupTask] and [DbPingHandlerTask].

    Python dictionaries are finite maps [gmap string PyVal].  Every loop of
    [reset] walks one dictionary and writes to another one, and the result
    of such a loop does not depend on the iteration order, so the insertion
    order of Python dictionaries is not part of the model. *)

From stdpp Require Import gmap strings list fin_maps.
From Stdlib Require Import ZArith.
From stdpp Require Import pretty.

Open Scope Z_scope.

(** ** Python values *)

(** The values a session stores under an option or data key: [None],
    booleans, integers and strings.  Floats and containers are left out;
    a container compares with a number the way a string does. *)
Inductive PyVal : Type :=
  | PyNone
  | PyBool (b : bool)
  | PyInt (z : Z)
  | PyStr (s : string).

#[global] Instance PyVal_eq_dec : EqDecision PyVal.
Proof. solve_decision. Defined.

(** Exceptions the modelled code can raise. *)
Inductive PyExn : Type :=
  | TypeError
  | KeyError.

Inductive Result (A : Type) : Type :=
  | Ok (a : A)
  | Raise (e : PyExn).
Arguments Ok {A} a.
Arguments Raise {A} e.

(** ** The session and the base task *)

(** The two dictionaries of the session object a task refers to. *)
Record Session : Type := mkSession {
  connection_options : gmap string PyVal;
  data : gmap string PyVal
}.

(** [DbSessionSetupTask]: the session the task works on together with the
    four bookkeeping dictionaries of [__init__].  A task is the only writer
    of its session here, so the reference [_session] is modelled by the
    session's current content. *)
Record DbSessionSetupTask : Type := mkTask {
  session : Session;
  input_options : gmap string PyVal;
  output_options : gmap string PyVal;
  input_data : gmap string PyVal;
  output_data : gmap string PyVal
}.

(** [__init__]: all four bookkeeping dictionaries start empty. *)
Definition init (s : Session) : DbSessionSetupTask :=
  mkTask s ∅ ∅ ∅ ∅.

(** [has_option]: [option in self.connection_options]. *)
Definition has_option (t : DbSessionSetupTask) (option : string) : bool :=
  bool_decide (is_Some (connection_options (session t) !! option)).

(** Modelled from the spec: [Session.has_data] is not part of the sources at
    hand; the spec gives it as the membership predicate [hasData(key)] of
    the session's data mapping. *)
Definition session_has_data (s : Session) (key : string) : bool :=
  bool_decide (is_Some (data s !! key)).

Definition has_data (t : DbSessionSetupTask) (option : string) : bool :=
  session_has_data (session t) option.

(** [extract_option]: returns the value and the new task state.  The test
    [has_option] and the [pop] that follows read the same entry, the one
    the lookup returns. *)
Definition extract_option (option : string) (default_value : PyVal)
    (t : DbSessionSetupTask) : PyVal * DbSessionSetupTask :=
  match connection_options (session t) !! option with
  | Some value =>
      (value,
       mkTask (mkSession (delete option (connection_options (session t)))
                         (data (session t)))
              (<[option := value]> (input_options t))
              (output_options t) (input_data t) (output_data t))
  | None => (default_value, t)
  end.

(** [define_option]: backs the option up through [extract_option] (with the
    default [None]), then writes the option and [_output_options]. *)
Definition define_option (option : string) (value : PyVal)
    (t : DbSessionSetupTask) : DbSessionSetupTask :=
  let t1 := snd (extract_option option PyNone t) in
  mkTask (mkSession (<[option := value]> (connection_options (session t1)))
                    (data (session t1)))
         (input_options t1)
         (<[option := value]> (output_options t1))
         (input_data t1) (output_data t1).

(** [define_data]. *)
Definition define_data (option : string) (value : PyVal)
    (t : DbSessionSetupTask) : DbSessionSetupTask :=
  let input_data' :=
    match data (session t) !! option with
    | Some old => <[option := old]> (input_data t)
    | None => input_data t
    end in
  mkTask (mkSession (connection_options (session t))
                    (<[option := value]> (data (session t))))
         (input_options t) (output_options t)
         input_data'
         (<[option := value]> (output_data t)).

(** The two loop shapes of [reset].
    [for option in added.keys(): if option in target: target.pop(option)] *)
Definition remove_added (added target : gmap string PyVal)
  : gmap string PyVal :=
  map_fold (λ option _ tgt,
              if bool_decide (is_Some (tgt !! option))
              then delete option tgt else tgt)
           target added.

(** [for option, value in removed.items(): target[option] = value] *)
Definition restore_removed (removed target : gmap string PyVal)
  : gmap string PyVal :=
  map_fold (λ option value tgt, <[option := value]> tgt) target removed.

(** [reset]: the four loops in source order, then the two [clear()] calls.
    [_input_data] and [_output_data] are not cleared by the source. *)
Definition reset (t : DbSessionSetupTask) : DbSessionSetupTask :=
  let opts1 := remove_added (output_options t) (connection_options (session t)) in
  let opts2 := restore_removed (input_options t) opts1 in
  let data1 := remove_added (output_data t) (data (session t)) in
  let data2 := restore_removed (input_data t) data1 in
  mkTask (mkSession opts2 data2) ∅ ∅ (input_data t) (output_data t).
Arguments reset : simpl never.

(** A call made on a task by its owner. *)
Inductive Call : Type :=
  | ExtractOption (option : string) (default_value : PyVal)
  | DefineOption (option : string) (value : PyVal)
  | DefineData (option : string) (value : PyVal)
  | Reset.

Definition call (c : Call) (t : DbSessionSetupTask) : DbSessionSetupTask :=
  match c with
  | ExtractOption option default_value =>
      snd (extract_option option default_value t)
  | DefineOption option value => define_option option value t
  | DefineData option value => define_data option value t
  | Reset => reset t
  end.

(** Calls are made one after the other, first call first. *)
Definition run (cs : list Call) (t : DbSessionSetupTask) : DbSessionSetupTask :=
  foldl (λ t c, call c t) t cs.

(** ** The keep-alive pinger and [DbPingHandlerTask] *)

(** [interval > n] of Python for an integer [n]: booleans compare as the
    integers 0 and 1, [None] and strings raise [TypeError]. *)
Definition py_gt_int (v : PyVal) (n : Z) : Result bool :=
  match v with
  | PyInt z => Ok (n <? z)
  | PyBool b => Ok (n <? Z.b2z b)
  | PyNone | PyStr _ => Raise TypeError
  end.

(** Modelled from the spec: the class [DbPingHandler] of [DbSessionUtils]
    is not part of the sources at hand.  The spec describes it as the state
    machine Idle, Running, Stopped: [start()] goes from Idle to Running,
    [stop()] from Running to Stopped and does nothing when already stopped,
    and [join()] returns once the loop has fully exited. *)
Inductive PingerState : Type :=
  | Idle
  | Running
  | Stopped.

(** Modelled from the spec: a pinger object, with the interval it was
    constructed with, its state, and whether a caller has waited for the end
    of its loop. *)
Record DbPingHandler : Type := mkPinger {
  pinger_interval : PyVal;
  pinger_state : PingerState;
  pinger_joined : bool
}.

(** Modelled from the spec: [start()], [stop()] and [join()].  The spec
    gives no transition for [stop()] on a pinger that was never started;
    it is left Idle. *)
Definition pinger_start (p : DbPingHandler) : DbPingHandler :=
  match pinger_state p with
  | Idle => mkPinger (pinger_interval p) Running (pinger_joined p)
  | Running | Stopped => p
  end.

Definition pinger_stop (p : DbPingHandler) : DbPingHandler :=
  match pinger_state p with
  | Running => mkPinger (pinger_interval p) Stopped (pinger_joined p)
  | Idle | Stopped => p
  end.

Definition pinger_join (p : DbPingHandler) : DbPingHandler :=
  mkPinger (pinger_interval p) (pinger_state p) true.

(** The methods the task calls on a pinger object. *)
Inductive PingerCall : Type :=
  | Start
  | Stop
  | Join.

#[global] Instance PingerCall_eq_dec : EqDecision PingerCall.
Proof. solve_decision. Defined.

(** [DbPingHandlerTask]: the base task and [_db_pinger], a reference into
    the store of pinger objects or [None]. *)
Record DbPingHandlerTask : Type := mkPingTask {
  base : DbSessionSetupTask;
  db_pinger : option nat
}.

(** The task together with the pinger objects created so far (a reference
    is an index of [pingers]) and the method calls made on them, oldest
    first. *)
Record World : Type := mkWorld {
  task : DbPingHandlerTask;
  pingers : list DbPingHandler;
  calls : list (nat * PingerCall)
}.

(** The methods of a [DbPingHandlerTask] its owner calls; [Do Reset] is the
    overriding [reset]. *)
Inductive Method : Type :=
  | OnConnect
  | OnConnected
  | Do (c : Call).

Module PingTask.

Section with_key.
(** [DbSessionData.PING_INTERVAL]: the module [DbSessionData] is not part of
    the sources at hand, the key is a parameter. *)
Variable PING_INTERVAL : string.

(** [__init__]: the base [__init__], then [_db_pinger = None]. *)
Definition init (s : Session) : World :=
  mkWorld (mkPingTask (init s) None) [] [].

(** [reset]: the base [reset], then [stop()] and [join()] on the pinger if
    there is one.  [_db_pinger] is not assigned. *)
Definition reset (w : World) : World :=
  let t := reset (base (task w)) in
  match db_pinger (task w) with
  | Some a =>
      mkWorld (mkPingTask t (Some a))
              (alter pinger_join a (alter pinger_stop a (pingers w)))
              (calls w ++ [(a, Stop); (a, Join)])
  | None => mkWorld (mkPingTask t None) (pingers w) (calls w)
  end.

(** [on_connected]. *)
Definition on_connected (w : World) : Result World :=
  let t := base (task w) in
  if has_data t PING_INTERVAL then
    match data (session t) !! PING_INTERVAL with
    | None => Raise KeyError
    | Some interval =>
        let test :=
          match interval with
          | PyNone => Ok false
          | _ => py_gt_int interval 0
          end in
        match test with
        | Raise e => Raise e
        | Ok false => Ok w
        | Ok true =>
            let a := length (pingers w) in
            Ok (mkWorld (mkPingTask t (Some a))
                        (pingers w ++ [pinger_start (mkPinger interval Idle false)])
                        (calls w ++ [(a, Start)]))
        end
    end
  else Ok w.

(** [on_connect] is inherited: [pass]. *)
Definition on_connect (w : World) : Result World := Ok w.

Definition invoke (m : Method) (w : World) : Result World :=
  match m with
  | OnConnect => on_connect w
  | OnConnected => on_connected w
  | Do Reset => Ok (reset w)
  | Do c =>
      Ok (mkWorld (mkPingTask (call c (base (task w))) (db_pinger (task w)))
                  (pingers w) (calls w))
  end.

(** Calls in sequence; the first exception ends the sequence. *)
Fixpoint invoke_all (ms : list Method) (w : World) : Result World :=
  match ms with
  | [] => Ok w
  | m :: ms =>
      match invoke m w with
      | Ok w' => invoke_all ms w'
      | Raise e => Raise e
      end
  end.

End with_key.
End PingTask.

(** ** Predicates used in the statements *)

(** What [reset] leaves under key [k] of a dictionary, from the dictionary
    and the two bookkeeping dictionaries that belong to it. *)
Definition restored (removed added target : gmap string PyVal) (k : string)
  : option PyVal :=
  match removed !! k with
  | Some v => Some v
  | None => match added !! k with Some _ => None | None => target !! k end
  end.

Definition is_option_call (c : Call) : Prop :=
  match c with
  | ExtractOption _ _ | DefineOption _ _ => True
  | DefineData _ _ | Reset => False
  end.

Definition option_call_key (c : Call) : option string :=
  match c with
  | ExtractOption k _ | DefineOption k _ => Some k
  | DefineData _ _ | Reset => None
  end.

(** The option keys of a sequence of calls, one entry per call. *)
Definition option_keys (cs : list Call) : list string :=
  omap option_call_key cs.

(** [reset] would bring the options back to [m0]. *)
Definition options_restorable (m0 : gmap string PyVal) (t : DbSessionSetupTask)
  : Prop :=
  ∀ k, restored (input_options t) (output_options t)
                (connection_options (session t)) k = m0 !! k.

(** The task has no bookkeeping for option [k]. *)
Definition option_untracked (k : string) (t : DbSessionSetupTask) : Prop :=
  input_options t !! k = None ∧ output_options t !! k = None.

(** The key a call names, if any. *)
Definition call_key (c : Call) : option string :=
  match c with
  | ExtractOption k _ | DefineOption k _ | DefineData k _ => Some k
  | Reset => None
  end.

(** No bookkeeping dictionary of the task has an entry for [k]. *)
Definition untouched (k : string) (t : DbSessionSetupTask) : Prop :=
  input_options t !! k = None ∧ output_options t !! k = None ∧
  input_data t !! k = None ∧ output_data t !! k = None.

(** Every data key with a backup is present in the session data.  A task
    keeps this from [__init__] on. *)
Definition data_backed (t : DbSessionSetupTask) : Prop :=
  ∀ k, is_Some (input_data t !! k) → is_Some (data (session t) !! k).

(** The call is [define_data] on key [k]. *)
Definition defines_data (k : string) (c : Call) : Prop :=
  match c with
  | DefineData j _ => j = k
  | ExtractOption _ _ | DefineOption _ _ | Reset => False
  end.

(** The data entry [k] exists only because the task added it. *)
Definition data_added (k : string) (t : DbSessionSetupTask) : Prop :=
  input_data t !! k = None ∧
  (is_Some (data (session t) !! k) → is_Some (output_data t !! k)).

(** The calls made so far on the pinger object at address [a]. *)
Definition calls_on (a : nat) (w : World) : list (nat * PingerCall) :=
  filter (λ e, e.1 = a) (calls w).

(** The world after [on_connected] created and started a pinger. *)
Definition spawned (interval : PyVal) (w : World) : World :=
  mkWorld (mkPingTask (base (task w)) (Some (length (pingers w))))
          (pingers w ++ [mkPinger interval Running false])
          (calls w ++ [(length (pingers w), Start)]).

(** The ping interval is absent, [None], zero or negative. *)
Definition interval_disabled (o : option PyVal) : Prop :=
  o = None ∨ o = Some PyNone ∨ ∃ z, o = Some (PyInt z) ∧ z ≤ 0.

(** The pinger the task refers to exists and was started. *)
Definition pinger_started (w : World) : Prop :=
  ∀ a, db_pinger (task w) = Some a →
       ∃ p, pingers w !! a = Some p ∧ pinger_state p ≠ Idle.

(** The pinger object at [a] exists and the task does not refer to it. *)
Definition unreferenced (a : nat) (w : World) : Prop :=
  (a < length (pingers w))%nat ∧ db_pinger (task w) ≠ Some a.

(** The data key of a [define_data] call. *)
Definition data_call_key (c : Call) : option string :=
  match c with
  | DefineData k _ => Some k
  | ExtractOption _ _ | DefineOption _ _ | Reset => None
  end.

(** The data keys of a sequence of calls, one entry per [define_data]. *)
Definition data_keys (cs : list Call) : list string :=
  omap data_call_key cs.

(** A sequence of calls without [reset] in which no option key is used again
    after a [define_option] on it and no data key is defined twice. *)
Fixpoint reversible (cs : list Call) : Prop :=
  match cs with
  | [] => True
  | c :: cs' =>
      match c with
      | ExtractOption _ _ => True
      | DefineOption k _ => k ∉ option_keys cs'
      | DefineData k _ => k ∉ data_keys cs'
      | Reset => False
      end ∧ reversible cs'
  end.

(** [reset] would not change the session: every entry is what the
    bookkeeping restores. *)
Definition settled (t : DbSessionSetupTask) : Prop :=
  session (reset t) = session t.

(** [reset] would leave a present option [k] as it is. *)
Definition option_settled (k : string) (t : DbSessionSetupTask) : Prop :=
  is_Some (connection_options (session t) !! k) →
  restored (input_options t) (output_options t)
           (connection_options (session t)) k
    = connection_options (session t) !! k.

(** [reset] would leave a present data entry [k] as it is. *)
Definition data_settled (k : string) (t : DbSessionSetupTask) : Prop :=
  is_Some (data (session t) !! k) →
  restored (input_data t) (output_data t) (data (session t)) k
    = data (session t) !! k.

(** What [reset] would make of the session, entry by entry. *)
Definition same_restore (t u : DbSessionSetupTask) : Prop :=
  ∀ k, restored (input_options u) (output_options u)
                (connection_options (session u)) k
         = restored (input_options t) (output_options t)
                    (connection_options (session t)) k ∧
       restored (input_data u) (output_data u) (data (session u)) k
         = restored (input_data t) (output_data t) (data (session t)) k.

(** The addresses of the pinger objects [start()] was called on, in the
    order of the calls. *)
Definition started_addresses (l : list (nat * PingerCall)) : list nat :=
  (filter (λ e, e.2 = Start) l).*1.

(** Every [stop()] and [join()] of the log comes after a [start()] on the
    same pinger object. *)
Definition after_start (l : list (nat * PingerCall)) : Prop :=
  ∀ i a c, l !! i = Some (a, c) → c ≠ Start →
           ∃ j, (j < i)%nat ∧ l !! j = Some (a, Start).

(** Every [join()] of the log comes right after a [stop()] on the same
    pinger object. *)
Definition join_follows_stop (l : list (nat * PingerCall)) : Prop :=
  ∀ i a, l !! i = Some (a, Join) →
         ∃ j, i = S j ∧ l !! j = Some (a, Stop).

(** What the task keeps true of the pinger objects and the calls on them. *)
Definition pinger_log_ok (w : World) : Prop :=
  started_addresses (calls w) = seq 0 (length (pingers w)) ∧
  (∀ a, db_pinger (task w) = Some a → (a < length (pingers w))%nat) ∧
  after_start (calls w) ∧
  join_follows_stop (calls w).

(** ** [mrs_plugin/general.py]: [configure] *)

(** Truth value of a Python value, as [if v] and [x if v else y] take it. *)
Definition py_truthy (v : PyVal) : bool :=
  match v with
  | PyNone => false
  | PyBool b => b
  | PyInt z => negb (z =? 0)
  | PyStr s => negb (String.eqb s "")
  end.

Module MrsGeneral.

(** [a < b] of Python on two lists of integers: the first position where
    the lists differ decides, and a proper prefix is smaller. *)
Fixpoint list_lt (a b : list Z) : bool :=
  match a, b with
  | [], [] => false
  | [], _ :: _ => true
  | _ :: _, [] => false
  | x :: a', y :: b' =>
      if x <? y then true else if y <? x then false else list_lt a' b'
  end.

(** The texts [configure] prints in interactive mode. *)
Inductive Message : Type :=
  | MsgChecking        (* MySQL Rest Data Service configuration. ... *)
  | MsgRecreated       (* The MRS metadata has been recreated. *)
  | MsgConfigured      (* The MRS metadata has been configured. *)
  | MsgWellConfigured  (* The MRS metadata is well configured, no changes performed. *)
  | MsgCreated         (* The MRS metadata has been created. *)
  | MsgEnabled         (* The MySQL REST Data Service has been enabled. *)
  | MsgDisabled.       (* The MySQL REST Data Service has been disabled. *)

(** What ends [configure] with an exception: the [IndexError] of [v[0]] on
    an empty list, and the three [raise Exception(...)] of the source. *)
Inductive Failure : Type :=
  | IndexError
  | Unsupported        (* Unsupported MRS metadata database schema version ... *)
  | NeedsRecreation    (* This MRS Shell Plugin version requires a new major version ... *)
  | Outdated.          (* The MRS schema is outdated. ... *)

(** The calls [configure] makes on its collaborators, which are not part of
    the sources at hand.  [CreateSchema true] is
    [create_rds_metadata_schema(session, drop_existing=True)],
    [CreateSchema false] the call without [drop_existing];
    [UpdateSchema v] is [update_rds_metadata_schema(session, v)];
    [UpdateConfig n] the update of [service_enabled] with [n];
    [SelectConfig] the query of the [config] row. *)
Inductive Action : Type :=
  | Print (m : Message)
  | Prompt
  | CreateSchema (drop_existing : bool)
  | UpdateSchema (version : string)
  | UpdateConfig (service_enabled : Z)
  | SelectConfig.

#[global] Instance Message_eq_dec : EqDecision Message.
Proof. solve_decision. Defined.

#[global] Instance Action_eq_dec : EqDecision Action.
Proof. solve_decision. Defined.

(** What the collaborators answer during one call of [configure]:
    [lib.core.get_interactive_default()],
    [lib.core.mrs_metadata_schema_exists(session)],
    [lib.core.get_metadata_schema_updated()],
    [lib.core.get_mrs_schema_version(session)],
    the answer to the prompt after [.strip().lower()], and
    [row["service_enabled"]] of the configuration row, [None] when there is
    no row. *)
Record Env : Type := mkEnv {
  interactive : bool;
  schema_exists : bool;
  schema_updated : PyVal;
  current_db_version : list Z;
  answer : string;
  config_row : option PyVal
}.

(** A computation that makes calls on the collaborators and ends with a
    value or an exception. *)
Definition M (A : Type) : Type := list Action * (Failure + A).

Definition ret {A} (a : A) : M A := ([], inr a).

Definition raise {A} (e : Failure) : M A := ([], inl e).

Definition act (a : Action) : M unit := ([a], inr tt).

Definition bind {A B} (m : M A) (f : A → M B) : M B :=
  match m with
  | (tr, inl e) => (tr, inl e)
  | (tr, inr a) => (tr ++ (f a).1, (f a).2)
  end.

Definition when (b : bool) (m : M unit) : M unit :=
  if b then m else ret tt.

(** [v[0]]. *)
Definition index0 (v : list Z) : M Z :=
  match v with
  | [] => raise IndexError
  | x :: _ => ret x
  end.

(** [".".join([str(ver) for ver in v])]. *)
Definition version_string (v : list Z) : string :=
  String.concat "." (pretty <$> v).

Section with_version.
(** [lib.general.DB_VERSION]: the module [lib.general] is not part of the
    sources at hand, the version of the plugin is a parameter. *)
Variable DB_VERSION : list Z.

(** The first part of the [with] block of [configure]: the metadata schema
    is checked, created, recreated or updated; the value is
    [schema_changed]. *)
Definition configure_schema (env : Env)
    (allow_recreation_on_major_upgrade : bool) : M PyVal :=
  if schema_exists env then
    let schema_changed := schema_updated env in
    if list_lt DB_VERSION (current_db_version env) then raise Unsupported
    else
      bind (index0 (current_db_version env)) (λ c0,
      bind (index0 DB_VERSION) (λ d0,
      if c0 <? d0 then
        if allow_recreation_on_major_upgrade then
          bind (act (CreateSchema true)) (λ _,
          bind (when (interactive env) (act (Print MsgRecreated))) (λ _,
          ret (PyBool true)))
        else raise NeedsRecreation
      else if list_lt (current_db_version env) DB_VERSION then
        bind (when (interactive env)
                (bind (act Prompt) (λ _,
                 if String.eqb (answer env) "n" then raise Outdated
                 else ret tt))) (λ _,
        bind (act (UpdateSchema (version_string (current_db_version env))))
             (λ _,
        bind (when (interactive env) (act (Print MsgConfigured))) (λ _,
        ret schema_changed)))
      else
        bind (when (interactive env) (act (Print MsgWellConfigured))) (λ _,
        ret schema_changed)))
  else
    bind (act (CreateSchema false)) (λ _,
    bind (when (interactive env) (act (Print MsgCreated))) (λ _,
    ret (PyBool true))).

(** The second part: the service is enabled or disabled as asked, or the
    stored setting is read; the value is [enable_mrs]. *)
Definition configure_enable (env : Env) (enable_mrs : PyVal) : M PyVal :=
  match enable_mrs with
  | PyNone =>
      bind (act SelectConfig) (λ _,
      ret (default (PyInt 0) (config_row env)))
  | _ =>
      bind (act (UpdateConfig (if py_truthy enable_mrs then 1 else 0))) (λ _,
      bind (when (interactive env)
              (act (Print (if py_truthy enable_mrs
                           then MsgEnabled else MsgDisabled)))) (λ _,
      ret enable_mrs))
  end.

(** [configure]: the value is the dictionary returned in non-interactive
    mode and [None] in interactive mode. *)
Definition configure (env : Env) (enable_mrs : PyVal)
    (allow_recreation_on_major_upgrade : bool)
  : M (option (gmap string PyVal)) :=
  bind (when (interactive env) (act (Print MsgChecking))) (λ _,
  bind (configure_schema env allow_recreation_on_major_upgrade)
       (λ schema_changed,
  bind (configure_enable env enable_mrs) (λ mrs_enabled,
  if interactive env then ret None
  else ret (Some {[ "schema_changed"%string := schema_changed;
                    "mrs_enabled"%string := mrs_enabled ]})))).

End with_version.
End MrsGeneral.

(** The call creates, recreates or updates the metadata schema. *)
Definition is_schema_action (a : MrsGeneral.Action) : bool :=
  match a with
  | MrsGeneral.CreateSchema _ | MrsGeneral.UpdateSchema _ => true
  | _ => false
  end.

(** The calls of a trace that create, recreate or update the metadata
    schema. *)
Definition schema_actions (tr : list MrsGeneral.Action)
  : list MrsGeneral.Action :=
  filter is_schema_action tr.

(** The trace has a call that creates or recreates the metadata schema. *)
Definition creates_schema (tr : list MrsGeneral.Action) : bool :=
  existsb (λ a, match a with
                | MrsGeneral.CreateSchema _ => true
                | _ => false
                end) tr.





(** * Properties of the base task *)

Section reset_loops.
Implicit Types added removed target : gmap string PyVal.

Lemma remove_added_lookup added target k :
  remove_added added target !! k =
    match added !! k with Some _ => None | None => target !! k end.
Proof.
  unfold remove_added.
  apply (map_fold_weak_ind
           (λ r m, r !! k = match m !! k with
                            | Some _ => None | None => target !! k end)).
  - by rewrite lookup_empty.
  - intros i x m r Hi IH.
    destruct (decide (i = k)) as [->|Hne].
    + rewrite lookup_insert_eq. case_bool_decide.
      * by rewrite lookup_delete_eq.
      * by apply eq_None_not_Some.
    + rewrite lookup_insert_ne by done.
      case_bool_decide; [by rewrite lookup_delete_ne|done].
Qed.

Lemma restore_removed_lookup removed target k :
  restore_removed removed target !! k =
    match removed !! k with Some v => Some v | None => target !! k end.
Proof.
  unfold restore_removed.
  apply (map_fold_weak_ind
           (λ r m, r !! k = match m !! k with
                            | Some v => Some v | None => target !! k end)).
  - by rewrite lookup_empty.
  - intros i x m r Hi IH.
    destruct (decide (i = k)) as [->|Hne].
    + by rewrite !lookup_insert_eq.
    + by rewrite !lookup_insert_ne.
Qed.
End reset_loops.

Lemma reset_options_lookup t k :
  connection_options (session (reset t)) !! k =
    restored (input_options t) (output_options t)
             (connection_options (session t)) k.
Proof.
  unfold reset, restored; simpl.
  by rewrite restore_removed_lookup, remove_added_lookup.
Qed.

Lemma reset_data_lookup t k :
  data (session (reset t)) !! k =
    restored (input_data t) (output_data t) (data (session t)) k.
Proof.
  unfold reset, restored; simpl.
  by rewrite restore_removed_lookup, remove_added_lookup.
Qed.

(** [reset] empties the two option dictionaries of the bookkeeping and
    leaves the two data dictionaries of the bookkeeping as they are. *)
Lemma reset_bookkeeping t :
  input_options (reset t) = ∅ ∧ output_options (reset t) = ∅ ∧
  input_data (reset t) = input_data t ∧ output_data (reset t) = output_data t.
Proof. done. Qed.

(** ** Defining the same option twice *)

Lemma define_option_input_options t k v :
  input_options (define_option k v t) =
    match connection_options (session t) !! k with
    | Some v0 => <[k := v0]> (input_options t)
    | None => input_options t
    end.
Proof.
  unfold define_option, extract_option.
  by destruct (connection_options (session t) !! k).
Qed.

Lemma define_option_lookup t k v :
  connection_options (session (define_option k v t)) !! k = Some v.
Proof. unfold define_option; simpl. by rewrite lookup_insert_eq. Qed.

Lemma define_option_twice_reset t k v1 v2 :
  connection_options
    (session (reset (define_option k v2 (define_option k v1 t)))) !! k
  = Some v1.
Proof.
  rewrite reset_options_lookup. unfold restored.
  rewrite define_option_input_options, define_option_lookup.
  by rewrite lookup_insert_eq.
Qed.

(** ** Calls on pairwise distinct option keys *)

Lemma extract_option_restorable m0 t k d :
  options_restorable m0 t → option_untracked k t →
  options_restorable m0 (snd (extract_option k d t)).
Proof.
  intros Hinv [Hi Ho] j. specialize (Hinv j). revert Hinv.
  unfold extract_option, restored.
  destruct (connection_options (session t) !! k) as [v|] eqn:Hk; simpl; [|done].
  destruct (decide (k = j)) as [<-|Hne].
  - rewrite lookup_insert_eq, Hi, Ho, Hk. done.
  - by rewrite lookup_insert_ne, lookup_delete_ne.
Qed.

Lemma extract_option_untracked t k d j :
  k ≠ j → option_untracked j t →
  option_untracked j (snd (extract_option k d t)).
Proof.
  intros Hne [Hi Ho]. unfold extract_option, option_untracked.
  destruct (connection_options (session t) !! k); simpl; [|done].
  by rewrite lookup_insert_ne.
Qed.

Lemma define_option_restorable m0 t k v :
  options_restorable m0 t → option_untracked k t →
  options_restorable m0 (define_option k v t).
Proof.
  intros Hinv [Hi Ho] j. specialize (Hinv j). revert Hinv.
  unfold define_option, extract_option, restored.
  destruct (connection_options (session t) !! k) as [v0|] eqn:Hk; simpl.
  - destruct (decide (k = j)) as [<-|Hne].
    + rewrite lookup_insert_eq, Hi, Ho, Hk. done.
    + by rewrite !lookup_insert_ne, lookup_delete_ne.
  - destruct (decide (k = j)) as [<-|Hne].
    + rewrite Hi, Ho, Hk, lookup_insert_eq. done.
    + by rewrite !lookup_insert_ne.
Qed.

Lemma define_option_untracked t k v j :
  k ≠ j → option_untracked j t → option_untracked j (define_option k v t).
Proof.
  intros Hne [Hi Ho]. unfold define_option, extract_option, option_untracked.
  destruct (connection_options (session t) !! k); simpl;
    by rewrite !lookup_insert_ne.
Qed.

Lemma run_option_calls_restorable m0 cs : ∀ t,
  Forall is_option_call cs →
  NoDup (option_keys cs) →
  (∀ k, k ∈ option_keys cs → option_untracked k t) →
  options_restorable m0 t →
  options_restorable m0 (run cs t).
Proof.
  induction cs as [|c cs IH]; intros t Hall Hnd Hfresh Hinv; [done|].
  apply Forall_cons in Hall as [Hc Hall].
  destruct c as [k d|k v| |]; try done; unfold option_keys in *; simpl in *;
    apply NoDup_cons in Hnd as [Hk Hnd];
    (apply IH; [done|done| |]).
  - intros j Hj. apply extract_option_untracked; [set_solver|].
    apply Hfresh. set_solver.
  - apply extract_option_restorable; [done|]. apply Hfresh. set_solver.
  - intros j Hj. apply define_option_untracked; [set_solver|].
    apply Hfresh. set_solver.
  - apply define_option_restorable; [done|]. apply Hfresh. set_solver.
Qed.

(** Option calls never touch the data dictionaries. *)
Lemma run_option_calls_data cs : ∀ t,
  Forall is_option_call cs →
  data (session (run cs t)) = data (session t) ∧
  input_data (run cs t) = input_data t ∧
  output_data (run cs t) = output_data t.
Proof.
  induction cs as [|c cs IH]; intros t Hall; [done|].
  apply Forall_cons in Hall as [Hc Hall].
  destruct c as [k d|k v| |]; try done; simpl;
    match goal with
    | |- context [run cs ?u] => destruct (IH u Hall) as (-> & -> & ->)
    end;
    unfold define_option, extract_option;
    by destruct (connection_options (session t) !! k).
Qed.

(** ** Keys the task never used *)

Lemma reset_untouched k t :
  untouched k t →
  connection_options (session (reset t)) !! k
    = connection_options (session t) !! k ∧
  data (session (reset t)) !! k = data (session t) !! k.
Proof.
  intros (Hio & Hoo & Hid & Hod).
  rewrite reset_options_lookup, reset_data_lookup. unfold restored.
  by rewrite Hio, Hoo, Hid, Hod.
Qed.

Lemma call_untouched c k t :
  call_key c ≠ Some k → untouched k t →
  untouched k (call c t) ∧
  connection_options (session (call c t)) !! k
    = connection_options (session t) !! k ∧
  data (session (call c t)) !! k = data (session t) !! k.
Proof.
  intros Hc Hu. pose proof Hu as (Hio & Hoo & Hid & Hod).
  destruct c as [j d|j v|j v|]; unfold call; simpl in Hc.
  - assert (j ≠ k) by congruence.
    unfold extract_option, untouched.
    destruct (connection_options (session t) !! j); simpl; [|done].
    by rewrite lookup_insert_ne, lookup_delete_ne.
  - assert (j ≠ k) by congruence.
    unfold define_option, extract_option, untouched.
    destruct (connection_options (session t) !! j); simpl;
      by rewrite ?lookup_insert_ne, ?lookup_delete_ne.
  - assert (j ≠ k) by congruence.
    unfold define_data, untouched; simpl.
    destruct (data (session t) !! j); by rewrite ?lookup_insert_ne.
  - split; [|by apply reset_untouched].
    unfold untouched.
    destruct (reset_bookkeeping t) as (-> & -> & -> & ->).
    by rewrite !lookup_empty.
Qed.

Lemma run_untouched cs k : ∀ t,
  Forall (λ c, call_key c ≠ Some k) cs → untouched k t →
  untouched k (run cs t) ∧
  connection_options (session (run cs t)) !! k
    = connection_options (session t) !! k ∧
  data (session (run cs t)) !! k = data (session t) !! k.
Proof.
  induction cs as [|c cs IH]; intros t Hall Hu; [done|].
  apply Forall_cons in Hall as [Hc Hall].
  destruct (call_untouched c k t Hc Hu) as (Hu' & Ho & Hd).
  destruct (IH (call c t) Hall Hu') as (? & Ho' & Hd'). simpl.
  by rewrite Ho', Hd', Ho, Hd.
Qed.

(** ** Data keys defined by the task *)

Lemma call_data_backed c t : data_backed t → data_backed (call c t).
Proof.
  intros Hb k. specialize (Hb k). revert Hb.
  destruct c as [j d|j v|j v|]; unfold call.
  - unfold extract_option.
    by destruct (connection_options (session t) !! j).
  - unfold define_option, extract_option.
    by destruct (connection_options (session t) !! j).
  - unfold define_data; simpl. intros Hb.
    destruct (decide (j = k)) as [->|Hne].
    + by rewrite lookup_insert_eq.
    + rewrite lookup_insert_ne by done.
      destruct (data (session t) !! j); by rewrite ?lookup_insert_ne.
  - intros _. rewrite reset_data_lookup. unfold restored.
    destruct (reset_bookkeeping t) as (_ & _ & -> & _).
    destruct (input_data t !! k); [done|]. by intros [? ?].
Qed.

Lemma run_data_backed cs : ∀ t, data_backed t → data_backed (run cs t).
Proof.
  induction cs as [|c cs IH]; intros t Hb; [done|].
  simpl. by apply IH, call_data_backed.
Qed.

Lemma init_data_backed s : data_backed (init s).
Proof. intros k. simpl. rewrite lookup_empty. by intros [? ?]. Qed.

Lemma call_data_added c k t :
  ¬ defines_data k c → data_added k t → data_added k (call c t).
Proof.
  intros Hc [Hi Hd]. destruct c as [j d|j v|j v|]; unfold call.
  - unfold extract_option.
    by destruct (connection_options (session t) !! j).
  - unfold define_option, extract_option.
    by destruct (connection_options (session t) !! j).
  - simpl in Hc. unfold define_data, data_added; simpl.
    rewrite !lookup_insert_ne by done.
    by destruct (data (session t) !! j); rewrite ?lookup_insert_ne.
  - unfold data_added. rewrite reset_data_lookup. unfold restored.
    destruct (reset_bookkeeping t) as (_ & _ & -> & ->).
    rewrite Hi. split; [done|].
    destruct (output_data t !! k); [done|apply Hd].
Qed.

Lemma run_data_added cs k : ∀ t,
  Forall (λ c, ¬ defines_data k c) cs → data_added k t →
  data_added k (run cs t).
Proof.
  induction cs as [|c cs IH]; intros t Hall Ha; [done|].
  apply Forall_cons in Hall as [Hc Hall].
  simpl. by apply IH, call_data_added.
Qed.

Lemma define_data_absent_added k v t :
  data (session t) !! k = None → input_data t !! k = None →
  data_added k (define_data k v t).
Proof.
  intros Hd Hi. unfold define_data, data_added; simpl.
  rewrite Hd. split; [done|]. intros _. rewrite lookup_insert_eq. by eexists.
Qed.

Lemma reset_data_added k t :
  data_added k t → data (session (reset t)) !! k = None.
Proof.
  intros [Hi Hd]. rewrite reset_data_lookup. unfold restored. rewrite Hi.
  destruct (output_data t !! k) eqn:Ho; [done|].
  destruct (data (session t) !! k) eqn:Hk; [|done].
  destruct Hd as [? ?]; [by eexists|done].
Qed.

(** * Main properties of the base task *)

(** C1: evaluation of the code.  The session has the option [k] with the
    value 0; the task defines [k] as 1, then as 2, and is reset.  The option
    [k] is then 1, the value of the first [define_option], and not 0, the
    value from before both calls: the second [define_option] overwrote the
    backup taken by the first. *)
Theorem define_option_twice_restores_first_defined :
  let s := mkSession {[ "k"%string := PyInt 0 ]} ∅ in
  let t := define_option "k" (PyInt 2) (define_option "k" (PyInt 1) (init s)) in
  input_options t !! "k"%string = Some (PyInt 1) ∧
  connection_options (session (reset t)) !! "k"%string = Some (PyInt 1) ∧
  connection_options (session (reset t)) !! "k"%string
    ≠ connection_options s !! "k"%string.
Proof.
  intros s t. split; [by vm_compute|].
  unfold t. rewrite define_option_twice_reset. split; [done|].
  by vm_compute.
Qed.

(** C2: after any sequence of [extract_option] and [define_option] calls on
    pairwise distinct keys, made on a new task, [reset] leaves the session
    with exactly the connection options it had when the task was created
    (and with the same data). *)
Theorem reset_roundtrip_distinct_option_keys s cs :
  Forall is_option_call cs →
  NoDup (option_keys cs) →
  connection_options (session (reset (run cs (init s)))) = connection_options s ∧
  data (session (reset (run cs (init s)))) = data s.
Proof.
  intros Hall Hnd. split.
  - apply map_eq. intros k. rewrite reset_options_lookup.
    apply (run_option_calls_restorable (connection_options s) cs (init s));
      [done|done| |].
    + intros j _. by split.
    + intros j. unfold restored; simpl. by rewrite !lookup_empty.
  - apply map_eq. intros k. rewrite reset_data_lookup.
    destruct (run_option_calls_data cs (init s) Hall) as (-> & -> & ->).
    unfold restored; simpl. by rewrite !lookup_empty.
Qed.

Lemma reset_roundtrip_distinct_option_keys_witness :
  let s := mkSession {[ "user"%string := PyStr "root";
                        "port"%string := PyInt 3306 ]} ∅ in
  let cs := [ExtractOption "user" PyNone; DefineOption "port" (PyInt 33060);
             DefineOption "ssl" (PyBool true); ExtractOption "socket" PyNone] in
  connection_options (session (reset (run cs (init s)))) = connection_options s ∧
  data (session (reset (run cs (init s)))) = data s.
Proof.
  intros s cs. apply (reset_roundtrip_distinct_option_keys s cs).
  - repeat constructor.
  - unfold cs, option_keys; simpl.
    repeat (apply NoDup_cons; split; [rewrite ?elem_of_cons, elem_of_nil; intuition discriminate|]).
    apply NoDup_nil_2.
Defined.

(** C5: evaluation of the code.  A new task defines the data entry [k] and
    is reset: the two option dictionaries of the bookkeeping are empty, the
    output data dictionary still holds [k].  The session had [j] in its
    data, the task redefines it and is reset: the input data dictionary
    still holds the backup of [j]. *)
Theorem reset_keeps_data_bookkeeping :
  let t := reset (define_data "k" (PyInt 1) (init (mkSession ∅ ∅))) in
  let u := reset (define_data "j" (PyInt 1)
                    (init (mkSession ∅ {[ "j"%string := PyInt 0 ]}))) in
  input_options t = ∅ ∧ output_options t = ∅ ∧
  output_data t = {[ "k"%string := PyInt 1 ]} ∧ output_data t ≠ ∅ ∧
  input_data u = {[ "j"%string := PyInt 0 ]} ∧ input_data u ≠ ∅.
Proof.
  intros t u. split_and!; by vm_compute.
Qed.

(** C8: a task reached from [__init__] by any calls finds the key [k]
    absent from the session data and calls [define_data] on it; whatever
    calls other than [define_data] on [k] follow, after [reset] the key [k]
    is absent from the session data again. *)
Theorem define_data_absent_reset_absent s cs1 k v cs2 :
  data (session (run cs1 (init s))) !! k = None →
  Forall (λ c, ¬ defines_data k c) cs2 →
  data (session (reset (run cs2 (define_data k v (run cs1 (init s)))))) !! k
    = None.
Proof.
  intros Habs Hcs2.
  apply reset_data_added, run_data_added; [done|].
  apply define_data_absent_added; [done|].
  pose proof (run_data_backed cs1 (init s) (init_data_backed s) k) as Hb.
  destruct (input_data (run cs1 (init s)) !! k) eqn:Hi; [|done].
  rewrite Habs in Hb. destruct Hb as [? ?]; [by eexists|done].
Qed.

Lemma define_data_absent_reset_absent_witness :
  let s := mkSession ∅ {[ "other"%string := PyInt 7 ]} in
  let cs1 := [DefineData "other" (PyInt 8); Reset] in
  let cs2 := [DefineOption "k" (PyInt 2); DefineData "other" (PyInt 9)] in
  data (session (reset (run cs2 (define_data "k" (PyInt 1)
                                   (run cs1 (init s)))))) !! "k"%string
    = None.
Proof.
  intros s cs1 cs2.
  apply (define_data_absent_reset_absent s cs1 "k" (PyInt 1) cs2).
  - by vm_compute.
  - unfold cs2. repeat constructor; simpl; [tauto|discriminate].
Defined.

(** C9: a key that no [extract_option], [define_option] or [define_data]
    call of the task ever named has, after [reset], the presence and value
    it had before [reset], in the connection options and in the data; they
    are those of the session when the task was created. *)
Theorem reset_frame_untouched_keys s cs k :
  Forall (λ c, call_key c ≠ Some k) cs →
  connection_options (session (reset (run cs (init s)))) !! k
    = connection_options (session (run cs (init s))) !! k ∧
  data (session (reset (run cs (init s)))) !! k
    = data (session (run cs (init s))) !! k ∧
  connection_options (session (reset (run cs (init s)))) !! k
    = connection_options s !! k ∧
  data (session (reset (run cs (init s)))) !! k = data s !! k.
Proof.
  intros Hcs.
  assert (untouched k (init s)) as H0.
  { unfold untouched; simpl. by rewrite !lookup_empty. }
  destruct (run_untouched cs k (init s) Hcs H0) as (Hu & Ho & Hd).
  destruct (reset_untouched k _ Hu) as (Hro & Hrd).
  change (session (init s)) with s in Ho, Hd.
  split_and!; congruence.
Qed.

Lemma reset_frame_untouched_keys_witness :
  let s := mkSession {[ "user"%string := PyStr "root" ]}
                     {[ "user"%string := PyInt 1 ]} in
  let cs := [DefineOption "port" (PyInt 1); DefineData "port" (PyInt 2);
             Reset; ExtractOption "host" PyNone] in
  connection_options (session (reset (run cs (init s)))) !! "user"%string
    = connection_options (session (run cs (init s))) !! "user"%string ∧
  data (session (reset (run cs (init s)))) !! "user"%string
    = data (session (run cs (init s))) !! "user"%string ∧
  connection_options (session (reset (run cs (init s)))) !! "user"%string
    = connection_options s !! "user"%string ∧
  data (session (reset (run cs (init s)))) !! "user"%string
    = data s !! "user"%string.
Proof.
  intros s cs. apply (reset_frame_untouched_keys s cs "user").
  unfold cs. repeat constructor; simpl; discriminate.
Defined.

(** ** Resetting twice, and using a task again *)

Lemma session_eq (s1 s2 : Session) :
  (∀ k, connection_options s1 !! k = connection_options s2 !! k) →
  (∀ k, data s1 !! k = data s2 !! k) →
  s1 = s2.
Proof.
  destruct s1 as [o1 d1], s2 as [o2 d2]; simpl. intros Ho Hd.
  f_equal; by apply map_eq.
Qed.

Lemma reset_reset_session t : session (reset (reset t)) = session (reset t).
Proof.
  apply session_eq; intros k.
  - rewrite (reset_options_lookup (reset t)).
    destruct (reset_bookkeeping t) as (-> & -> & _ & _).
    unfold restored. by rewrite !lookup_empty.
  - rewrite (reset_data_lookup (reset t)).
    destruct (reset_bookkeeping t) as (_ & _ & -> & ->).
    unfold restored. rewrite !(reset_data_lookup t). unfold restored.
    destruct (input_data t !! k) eqn:Hi; [done|].
    by destruct (output_data t !! k) eqn:Ho.
Qed.

Lemma settled_lookup t :
  settled t →
  ∀ k, restored (input_options t) (output_options t)
                (connection_options (session t)) k
         = connection_options (session t) !! k ∧
       restored (input_data t) (output_data t) (data (session t)) k
         = data (session t) !! k.
Proof.
  intros Hs k. rewrite <- reset_options_lookup, <- reset_data_lookup.
  unfold settled in Hs. by rewrite Hs.
Qed.

Lemma extract_option_same_restore t k d :
  option_settled k t → same_restore t (snd (extract_option k d t)).
Proof.
  intros Hk j. unfold option_settled in Hk. revert Hk.
  unfold extract_option, restored.
  destruct (connection_options (session t) !! k) as [v|] eqn:Hv; simpl;
    [|done].
  intros Hk. split; [|done].
  destruct (decide (k = j)) as [<-|Hne].
  - rewrite lookup_insert_eq. symmetry. rewrite Hv. by apply Hk.
  - by rewrite lookup_insert_ne, lookup_delete_ne.
Qed.

Lemma extract_option_settled t k d j :
  option_settled j t → option_settled j (snd (extract_option k d t)).
Proof.
  unfold option_settled, extract_option, restored.
  destruct (connection_options (session t) !! k) as [v|] eqn:Hv; simpl;
    [|done].
  destruct (decide (k = j)) as [<-|Hne].
  - rewrite lookup_delete_eq. by intros _ [? ?].
  - by rewrite lookup_insert_ne, lookup_delete_ne.
Qed.

Lemma extract_option_data_settled t k d j :
  data_settled j t → data_settled j (snd (extract_option k d t)).
Proof.
  unfold data_settled, extract_option.
  by destruct (connection_options (session t) !! k).
Qed.

Lemma define_option_same_restore t k v :
  option_settled k t → same_restore t (define_option k v t).
Proof.
  intros Hk j.
  destruct (extract_option_same_restore t k PyNone Hk j) as [Ho Hd].
  rewrite <- Ho, <- Hd. clear Ho Hd Hk.
  unfold define_option.
  assert (connection_options (session (snd (extract_option k PyNone t))) !! k
          = None) as Habs.
  { unfold extract_option.
    destruct (connection_options (session t) !! k) eqn:Hv; simpl;
      [by rewrite lookup_delete_eq|done]. }
  revert Habs. generalize (snd (extract_option k PyNone t)). intros u Habs.
  simpl. split; [|done]. unfold restored.
  destruct (decide (k = j)) as [<-|Hne].
  - rewrite lookup_insert_eq, Habs. by destruct (output_options u !! k).
  - by rewrite !lookup_insert_ne.
Qed.

Lemma define_option_settled t k v j :
  k ≠ j → option_settled j t → option_settled j (define_option k v t).
Proof.
  intros Hne. unfold option_settled, define_option, extract_option, restored.
  destruct (connection_options (session t) !! k); simpl;
    by rewrite ?lookup_insert_ne, ?lookup_delete_ne.
Qed.

Lemma define_option_data_settled t k v j :
  data_settled j t → data_settled j (define_option k v t).
Proof.
  unfold data_settled, define_option, extract_option.
  by destruct (connection_options (session t) !! k).
Qed.

Lemma define_data_same_restore t k v :
  data_settled k t → same_restore t (define_data k v t).
Proof.
  intros Hk j. split; [done|]. unfold data_settled in Hk. revert Hk.
  unfold define_data, restored; simpl.
  destruct (decide (k = j)) as [<-|Hne].
  - destruct (data (session t) !! k) as [old|] eqn:Hold.
    + rewrite lookup_insert_eq. intros Hk. symmetry. by apply Hk.
    + intros _. rewrite lookup_insert_eq.
      destruct (input_data t !! k); [done|].
      by destruct (output_data t !! k).
  - intros _. rewrite !lookup_insert_ne by done.
    by destruct (data (session t) !! k); rewrite ?lookup_insert_ne.
Qed.

Lemma define_data_settled t k v j :
  k ≠ j → data_settled j t → data_settled j (define_data k v t).
Proof.
  intros Hne. unfold data_settled, define_data, restored; simpl.
  rewrite !lookup_insert_ne by done.
  by destruct (data (session t) !! k); rewrite ?lookup_insert_ne.
Qed.

Lemma define_data_option_settled t k v j :
  option_settled j t → option_settled j (define_data k v t).
Proof. done. Qed.

Lemma run_reversible_same_restore cs : ∀ t,
  reversible cs →
  (∀ k, k ∈ option_keys cs → option_settled k t) →
  (∀ k, k ∈ data_keys cs → data_settled k t) →
  same_restore t (run cs t).
Proof.
  induction cs as [|c cs IH]; intros t Hrev Hopt Hdat; [done|].
  destruct Hrev as [Hc Hrev].
  assert (∀ u, same_restore t u →
               (∀ k, k ∈ option_keys cs → option_settled k u) →
               (∀ k, k ∈ data_keys cs → data_settled k u) →
               same_restore t (run cs u)) as Hgo.
  { intros u Hu Ho Hd j. destruct (IH u Hrev Ho Hd j) as [-> ->]. apply Hu. }
  unfold option_keys, data_keys in *.
  destruct c as [k d|k v|k v|]; simpl in *; [| | |done]; apply Hgo.
  - apply extract_option_same_restore, Hopt. set_solver.
  - intros j Hj. apply extract_option_settled, Hopt. set_solver.
  - intros j Hj. by apply extract_option_data_settled, Hdat.
  - apply define_option_same_restore, Hopt. set_solver.
  - intros j Hj. apply define_option_settled; [set_solver|].
    apply Hopt. set_solver.
  - intros j Hj. by apply define_option_data_settled, Hdat.
  - apply define_data_same_restore, Hdat. set_solver.
  - intros j Hj. by apply define_data_option_settled, Hopt.
  - intros j Hj. apply define_data_settled; [set_solver|].
    apply Hdat. set_solver.
Qed.

(** X1: [reset] is idempotent: a second [reset] right after the first
    changes neither the session nor the bookkeeping of the task, although
    the first one leaves the data bookkeeping in place. *)
Theorem reset_idempotent t : reset (reset t) = reset t.
Proof.
  pose proof (reset_reset_session t) as Hs.
  destruct (reset_bookkeeping (reset t)) as (Hio & Hoo & Hid & Hod).
  destruct (reset (reset t)) as [s2 io2 oo2 id2 od2].
  destruct (reset t) as [s1 io1 oo1 id1 od1] eqn:E1.
  destruct (reset_bookkeeping t) as (Hio1 & Hoo1 & _ & _).
  rewrite E1 in Hio1, Hoo1. simpl in *. congruence.
Qed.

(** X2: from a task whose session [reset] would leave as it is (a new task,
    or any task right after [reset]), calls that never use an option key
    again after a [define_option] on it and never define a data key twice
    are undone by [reset]: the session gets back its connection options and
    its data exactly. *)
Theorem reset_roundtrip_reversible t cs :
  settled t → reversible cs → session (reset (run cs t)) = session t.
Proof.
  intros Hs Hrev. pose proof (settled_lookup t Hs) as Hl.
  assert (same_restore t (run cs t)) as Hsame.
  { apply run_reversible_same_restore; [done| |].
    - intros k _ _. apply Hl.
    - intros k _ _. apply Hl. }
  apply session_eq; intros k.
  - rewrite reset_options_lookup. destruct (Hsame k) as [-> _]. apply Hl.
  - rewrite reset_data_lookup. destruct (Hsame k) as [_ ->]. apply Hl.
Qed.

Lemma init_settled s : settled (init s).
Proof.
  apply session_eq; intros k.
  - rewrite reset_options_lookup. unfold restored; simpl.
    by rewrite !lookup_empty.
  - rewrite reset_data_lookup. unfold restored; simpl.
    by rewrite !lookup_empty.
Qed.

Lemma reset_settled t : settled (reset t).
Proof. apply reset_reset_session. Qed.

Lemma reset_roundtrip_reversible_witness :
  let s := mkSession {[ "user"%string := PyStr "root" ]}
                     {[ "a"%string := PyInt 0 ]} in
  let t := reset (define_data "a" (PyInt 1) (init s)) in
  let cs := [ExtractOption "user" PyNone; DefineOption "user" (PyStr "admin");
             DefineData "a" (PyInt 2); DefineData "b" (PyInt 3)] in
  session (reset (run cs t)) = session t.
Proof.
  intros s t cs. apply (reset_roundtrip_reversible t cs).
  - by vm_compute.
  - unfold cs, option_keys, data_keys; simpl.
    rewrite !elem_of_cons, !elem_of_nil. intuition discriminate.
Defined.

(** ** Extracting and defining the same key *)

(** X3: [extract_option] returns the value of the option, or the default
    when the option is absent; the option is absent afterwards, and a second
    [extract_option] on the same key returns its default and changes
    nothing. *)
Theorem extract_option_contract t k d1 d2 :
  fst (extract_option k d1 t)
    = default d1 (connection_options (session t) !! k) ∧
  has_option (snd (extract_option k d1 t)) k = false ∧
  extract_option k d2 (snd (extract_option k d1 t))
    = (d2, snd (extract_option k d1 t)).
Proof.
  unfold has_option.
  assert (connection_options (session (snd (extract_option k d1 t))) !! k
          = None) as Habs.
  { unfold extract_option.
    destruct (connection_options (session t) !! k) eqn:Hv; simpl;
      [by rewrite lookup_delete_eq|done]. }
  split_and!.
  - unfold extract_option.
    by destruct (connection_options (session t) !! k).
  - rewrite Habs. apply bool_decide_eq_false_2. by intros [? ?].
  - unfold extract_option at 1. by rewrite Habs.
Qed.

(** X4: an option the task defined and then extracted comes back with
    [reset]: [extract_option] returns the defined value and archives it as
    if it had been there before the task, so after [reset] the option is
    present with the value the task gave it, whatever the session held
    before. *)
Theorem define_extract_reset_keeps_defined t k v d :
  fst (extract_option k d (define_option k v t)) = v ∧
  connection_options
    (session (reset (snd (extract_option k d (define_option k v t))))) !! k
  = Some v.
Proof.
  pose proof (define_option_lookup t k v) as Hv.
  unfold extract_option. rewrite Hv. cbn [fst snd]. split; [done|].
  rewrite reset_options_lookup. unfold restored. simpl.
  by rewrite lookup_insert_eq.
Qed.

(** X5: when [define_data] is called twice on a key, [reset] leaves the key
    with the value of the first call, whatever the session data held
    before: the second call archives the value written by the first. *)
Theorem define_data_twice_reset t k v1 v2 :
  data (session (reset (define_data k v2 (define_data k v1 t)))) !! k
  = Some v1.
Proof.
  rewrite reset_data_lookup. unfold restored, define_data; simpl.
  by rewrite !lookup_insert_eq.
Qed.

(** * Properties of the ping task *)

Section ping_task.
Variable PING_INTERVAL : string.

Local Abbreviation on_connected := (PingTask.on_connected PING_INTERVAL).
Local Abbreviation invoke := (PingTask.invoke PING_INTERVAL).
Local Abbreviation invoke_all := (PingTask.invoke_all PING_INTERVAL).
Local Abbreviation interval_of w :=
  (data (session (base (task w))) !! PING_INTERVAL).

Lemma on_connected_unfold w :
  on_connected w =
    match interval_of w with
    | None | Some PyNone => Ok w
    | Some interval =>
        match py_gt_int interval 0 with
        | Raise e => Raise e
        | Ok false => Ok w
        | Ok true => Ok (spawned interval w)
        end
    end.
Proof.
  unfold PingTask.on_connected, has_data, session_has_data.
  destruct (interval_of w) as [v|] eqn:Hv.
  - rewrite bool_decide_eq_true_2 by eauto.
    destruct v as [|b|z|s]; try done.
  - rewrite bool_decide_eq_false_2; [done|]. by intros [? ?].
Qed.

Lemma on_connected_disabled w :
  interval_disabled (interval_of w) → on_connected w = Ok w.
Proof.
  rewrite on_connected_unfold.
  intros [->|[->|(z & -> & Hz)]]; [done|done|].
  simpl. destruct (0 <? z) eqn:Hlt; [|done].
  apply Z.ltb_lt in Hlt. lia.
Qed.

Lemma reset_without_pinger w :
  db_pinger (task w) = None →
  db_pinger (task (PingTask.reset w)) = None ∧
  pingers (PingTask.reset w) = pingers w ∧
  calls (PingTask.reset w) = calls w.
Proof. intros H. unfold PingTask.reset. by rewrite H. Qed.

Lemma reset_with_pinger w a p :
  db_pinger (task w) = Some a → pingers w !! a = Some p →
  db_pinger (task (PingTask.reset w)) = Some a ∧
  pingers (PingTask.reset w) !! a = Some (pinger_join (pinger_stop p)) ∧
  calls (PingTask.reset w) = calls w ++ [(a, Stop); (a, Join)].
Proof.
  intros Ha Hp. unfold PingTask.reset. rewrite Ha. simpl.
  by rewrite !list_lookup_alter_eq, Hp.
Qed.

Lemma stop_join_state p :
  pinger_state p ≠ Idle →
  pinger_state (pinger_join (pinger_stop p)) = Stopped ∧
  pinger_joined (pinger_join (pinger_stop p)) = true.
Proof. unfold pinger_join, pinger_stop. by destruct (pinger_state p) eqn:E; simpl; rewrite ?E. Qed.

Lemma init_started s : pinger_started (PingTask.init s).
Proof. by intros a. Qed.

Lemma invoke_started m w w' :
  pinger_started w → invoke m w = Ok w' → pinger_started w'.
Proof.
  intros Hs. destruct m as [| |c]; simpl.
  - by intros [= <-].
  - rewrite on_connected_unfold.
    destruct (interval_of w) as [v|]; [|by intros [= <-]].
    assert (py_gt_int v 0 = Ok true → Ok (spawned v w) = Ok w' →
            pinger_started w') as Hnew.
    { intros _ [= <-] a [= <-]. eexists.
      split; [by apply list_lookup_middle|done]. }
    destruct v as [|b|z|s]; simpl; simpl in Hnew.
    + by intros [= <-].
    + destruct (0 <? Z.b2z b); [by apply Hnew|by intros [= <-]].
    + destruct (0 <? z); [by apply Hnew|by intros [= <-]].
    + done.
  - destruct c as [k d|k v|k v|]; intros [= <-]; try exact Hs.
    intros a Ha. unfold PingTask.reset in *.
    destruct (db_pinger (task w)) as [b|] eqn:Hb; [|done].
    simpl in Ha. injection Ha as <-.
    destruct (Hs b Hb) as (p & Hp & Hidle). simpl.
    rewrite !list_lookup_alter_eq, Hp. eexists. split; [done|].
    destruct (stop_join_state p Hidle) as [-> _]. done.
Qed.

Lemma invoke_all_started ms : ∀ w w',
  pinger_started w → invoke_all ms w = Ok w' → pinger_started w'.
Proof.
  induction ms as [|m ms IH]; intros w w' Hs; simpl.
  - by intros [= <-].
  - destruct (invoke m w) as [w1|e] eqn:Hm; [|done].
    apply IH. by eapply invoke_started.
Qed.

Lemma calls_on_snoc a w es :
  Forall (λ e, e.1 ≠ a) es →
  filter (λ e, e.1 = a) (calls w ++ es) = calls_on a w.
Proof.
  intros Hes. unfold calls_on. rewrite filter_app.
  assert (filter (λ e : nat * PingerCall, e.1 = a) es = []) as ->.
  { induction Hes as [|e es He _ IH]; [done|].
    by rewrite filter_cons_False. }
  by rewrite app_nil_r.
Qed.

Lemma invoke_unreferenced a m w w' :
  unreferenced a w → invoke m w = Ok w' →
  unreferenced a w' ∧ pingers w' !! a = pingers w !! a ∧
  calls_on a w' = calls_on a w.
Proof.
  intros [Hlen Href]. destruct m as [| |c]; simpl.
  - by intros [= <-].
  - rewrite on_connected_unfold.
    destruct (interval_of w) as [v|]; [|by intros [= <-]].
    assert (Ok (spawned v w) = Ok w' →
            unreferenced a w' ∧ pingers w' !! a = pingers w !! a ∧
            calls_on a w' = calls_on a w) as Hnew.
    { intros [= <-]. unfold unreferenced, spawned; simpl.
      rewrite length_app, lookup_app_l by done. simpl.
      split_and!; [lia|intros [= ?]; lia|done|].
      apply calls_on_snoc. repeat constructor. simpl. lia. }
    destruct v as [|b|z|s]; simpl.
    + by intros [= <-].
    + destruct (0 <? Z.b2z b); [done|by intros [= <-]].
    + destruct (0 <? z); [done|by intros [= <-]].
    + done.
  - destruct c as [k d|k v|k v|]; intros [= <-]; try done.
    unfold PingTask.reset, unreferenced.
    destruct (db_pinger (task w)) as [b|] eqn:Hb; simpl; [|done].
    assert (b ≠ a) by congruence.
    rewrite !length_alter, !list_lookup_alter_ne by done.
    split_and!; [done|congruence|done|].
    apply calls_on_snoc. by repeat constructor.
Qed.

Lemma invoke_all_unreferenced a ms : ∀ w w',
  unreferenced a w → invoke_all ms w = Ok w' →
  unreferenced a w' ∧ pingers w' !! a = pingers w !! a ∧
  calls_on a w' = calls_on a w.
Proof.
  induction ms as [|m ms IH]; intros w w' Hu; simpl.
  - by intros [= <-].
  - destruct (invoke m w) as [w1|e] eqn:Hm; [|done].
    destruct (invoke_unreferenced a m w w1 Hu Hm) as (Hu1 & Hp1 & Hc1).
    intros Hms. destruct (IH w1 w' Hu1 Hms) as (? & ? & ?).
    split_and!; [done|congruence|congruence].
Qed.

(** C4 (as amended): for every task reached from [__init__] by any calls,
    [reset] calls [stop()] and then [join()] on the pinger the task refers
    to, which is stopped and joined afterwards, and leaves the reference
    [_db_pinger] as it was; the reference is not cleared. *)
Theorem reset_stops_joins_keeps_reference ms s w :
  invoke_all ms (PingTask.init s) = Ok w →
  db_pinger (task (PingTask.reset w)) = db_pinger (task w) ∧
  ∀ a, db_pinger (task w) = Some a →
       calls (PingTask.reset w) = calls w ++ [(a, Stop); (a, Join)] ∧
       ∃ p, pingers (PingTask.reset w) !! a = Some p ∧
            pinger_state p = Stopped ∧ pinger_joined p = true.
Proof.
  intros Hrun.
  pose proof (invoke_all_started ms _ _ (init_started s) Hrun) as Hs.
  destruct (db_pinger (task w)) as [a|] eqn:Ha.
  - destruct (Hs a Ha) as (p & Hp & Hidle).
    destruct (reset_with_pinger w a p Ha Hp) as (Hr & Hl & Hc).
    split; [done|]. intros ? [= <-]. split; [done|].
    exists (pinger_join (pinger_stop p)).
    split; [done|]. by apply stop_join_state.
  - destruct (reset_without_pinger w Ha) as (Hr & _). by rewrite Hr.
Qed.

(** C6 (as amended): with a negative number under the ping-interval key
    [on_connected] returns normally and changes nothing, so a null pinger
    stays null; with a string under that key the comparison
    [interval > 0] raises [TypeError] and [on_connected] lets it through. *)
Theorem on_connected_malformed_interval w v :
  interval_of w = Some v →
  (∀ z, v = PyInt z → z < 0 → on_connected w = Ok w) ∧
  (∀ s, v = PyStr s → on_connected w = Raise TypeError).
Proof.
  intros Hv. split.
  - intros z -> Hz. apply on_connected_disabled.
    right; right. exists z. split; [done|lia].
  - intros s ->. by rewrite on_connected_unfold, Hv.
Qed.

(** C7: when the ping-interval entry of the session data is absent, [None],
    zero or negative, [on_connected] on a task without pinger returns with
    nothing changed (no pinger object is created or started, [_db_pinger]
    stays [None]), and the [reset] that follows makes no call on any pinger
    object. *)
Theorem on_connected_disabled_no_pinger w :
  db_pinger (task w) = None →
  interval_disabled (interval_of w) →
  on_connected w = Ok w ∧
  db_pinger (task (PingTask.reset w)) = None ∧
  pingers (PingTask.reset w) = pingers w ∧
  calls (PingTask.reset w) = calls w.
Proof.
  intros Hnone Hdis. split; [by apply on_connected_disabled|].
  by apply reset_without_pinger.
Qed.

(** C10: when [on_connected] runs on a task that already refers to a pinger
    and the ping interval is set and strictly positive, the reference is
    overwritten by a new pinger that has been started; the pinger referred
    to before is left as it was, and no later call on the task, [reset]
    included, stops or joins it. *)
Theorem on_connected_again_leaks_pinger w a interval :
  db_pinger (task w) = Some a →
  (a < length (pingers w))%nat →
  interval_of w = Some interval →
  py_gt_int interval 0 = Ok true →
  ∃ w1, on_connected w = Ok w1 ∧
        db_pinger (task w1) = Some (length (pingers w)) ∧
        length (pingers w) ≠ a ∧
        pingers w1 !! length (pingers w)
          = Some (mkPinger interval Running false) ∧
        calls w1 = calls w ++ [(length (pingers w), Start)] ∧
        pingers w1 !! a = pingers w !! a ∧
        ∀ ms w2, invoke_all ms w1 = Ok w2 →
                 pingers w2 !! a = pingers w !! a ∧
                 calls_on a w2 = calls_on a w.
Proof.
  intros Ha Hlen Hv Hpos. exists (spawned interval w).
  assert (on_connected w = Ok (spawned interval w)) as Hon.
  { rewrite on_connected_unfold, Hv, Hpos. by destruct interval. }
  assert (length (pingers w) ≠ a) as Hne by lia.
  assert (pingers (spawned interval w) !! a = pingers w !! a) as Hold.
  { simpl. by rewrite lookup_app_l. }
  assert (calls_on a (spawned interval w) = calls_on a w) as Hcalls.
  { apply calls_on_snoc. by repeat constructor. }
  assert (unreferenced a (spawned interval w)) as Hu.
  { split; simpl; [rewrite length_app; simpl; lia|congruence]. }
  split_and!; try done.
  - simpl. by apply list_lookup_middle.
  - intros ms w2 Hms.
    destruct (invoke_all_unreferenced a ms _ _ Hu Hms) as (_ & Hp & Hc).
    split; congruence.
Qed.

End ping_task.

(** * Concrete runs of the ping task *)

Lemma reset_stops_joins_keeps_reference_witness :
  let w := mkWorld (mkPingTask
                      (init (mkSession ∅ {[ "ping-interval"%string := PyInt 5 ]}))
                      (Some 0%nat))
                   [mkPinger (PyInt 5) Running false] [(0%nat, Start)] in
  db_pinger (task (PingTask.reset w)) = db_pinger (task w) ∧
  ∀ a, db_pinger (task w) = Some a →
       calls (PingTask.reset w) = calls w ++ [(a, Stop); (a, Join)] ∧
       ∃ p, pingers (PingTask.reset w) !! a = Some p ∧
            pinger_state p = Stopped ∧ pinger_joined p = true.
Proof.
  intros w.
  apply (reset_stops_joins_keeps_reference "ping-interval" [OnConnected]
           (mkSession ∅ {[ "ping-interval"%string := PyInt 5 ]}) w).
  by vm_compute.
Defined.

(** C4, counterexample to the property as the spec states it: a new task
    on a session with the ping interval 5 is connected and then reset.
    [_db_pinger] still refers to the pinger, which is stopped and joined:
    the reference is not null although no ping loop is active. *)
Lemma reset_does_not_clear_pinger :
  let w0 := PingTask.init (mkSession ∅ {[ "ping-interval"%string := PyInt 5 ]}) in
  ∃ w1, PingTask.on_connected "ping-interval" w0 = Ok w1 ∧
        db_pinger (task (PingTask.reset w1)) = Some 0%nat ∧
        db_pinger (task (PingTask.reset w1)) ≠ None ∧
        pingers (PingTask.reset w1) !! 0%nat
          = Some (mkPinger (PyInt 5) Stopped true).
Proof.
  intros w0. eexists. split; [by vm_compute|]. by vm_compute.
Qed.

Lemma on_connected_malformed_interval_witness :
  let neg := PingTask.init (mkSession ∅ {[ "ping-interval"%string := PyInt (-1) ]}) in
  let str := PingTask.init (mkSession ∅ {[ "ping-interval"%string := PyStr "5" ]}) in
  PingTask.on_connected "ping-interval" neg = Ok neg ∧
  PingTask.on_connected "ping-interval" str = Raise TypeError.
Proof.
  intros neg str. split.
  - apply (proj1 (on_connected_malformed_interval "ping-interval" neg
                    (PyInt (-1)) eq_refl) (-1)); [reflexivity|lia].
  - apply (proj2 (on_connected_malformed_interval "ping-interval" str
                    (PyStr "5") eq_refl) "5"%string). reflexivity.
Defined.

(** C6, counterexample to the property as the spec states it: the session
    data has a string under the ping-interval key; [on_connected] raises
    [TypeError] and so does not return with the pinger left null. *)
Lemma on_connected_string_interval_raises :
  let w := PingTask.init (mkSession ∅ {[ "ping-interval"%string := PyStr "5" ]}) in
  PingTask.on_connected "ping-interval" w = Raise TypeError ∧
  ¬ ∃ w', PingTask.on_connected "ping-interval" w = Ok w' ∧
          db_pinger (task w') = None.
Proof.
  intros w.
  assert (PingTask.on_connected "ping-interval" w = Raise TypeError) as H
    by by vm_compute.
  split; [done|]. intros (w' & Hw' & _). congruence.
Qed.

Lemma on_connected_disabled_no_pinger_witness :
  let w := PingTask.init (mkSession ∅ {[ "ping-interval"%string := PyInt 0 ]}) in
  PingTask.on_connected "ping-interval" w = Ok w ∧
  db_pinger (task (PingTask.reset w)) = None ∧
  pingers (PingTask.reset w) = pingers w ∧
  calls (PingTask.reset w) = calls w.
Proof.
  intros w. apply (on_connected_disabled_no_pinger "ping-interval" w).
  - reflexivity.
  - right; right. exists 0. split; [reflexivity|lia].
Defined.

Lemma on_connected_again_leaks_pinger_witness :
  let w := mkWorld (mkPingTask
                      (init (mkSession ∅ {[ "ping-interval"%string := PyInt 5 ]}))
                      (Some 0%nat))
                   [mkPinger (PyInt 5) Running false] [(0%nat, Start)] in
  ∃ w1, PingTask.on_connected "ping-interval" w = Ok w1 ∧
        db_pinger (task w1) = Some (length (pingers w)) ∧
        length (pingers w) ≠ 0%nat ∧
        pingers w1 !! length (pingers w)
          = Some (mkPinger (PyInt 5) Running false) ∧
        calls w1 = calls w ++ [(length (pingers w), Start)] ∧
        pingers w1 !! 0%nat = pingers w !! 0%nat ∧
        ∀ ms w2, PingTask.invoke_all "ping-interval" ms w1 = Ok w2 →
                 pingers w2 !! 0%nat = pingers w !! 0%nat ∧
                 calls_on 0 w2 = calls_on 0 w.
Proof.
  intros w.
  apply (on_connected_again_leaks_pinger "ping-interval" w 0%nat (PyInt 5)).
  - reflexivity.
  - simpl. lia.
  - reflexivity.
  - reflexivity.
Defined.

(** * No pinger is left running by [reset] *)




Section ping_task_quiet.
Variable PING_INTERVAL : string.

Local Abbreviation on_connected := (PingTask.on_connected PING_INTERVAL).
Local Abbreviation invoke := (PingTask.invoke PING_INTERVAL).
Local Abbreviation invoke_all := (PingTask.invoke_all PING_INTERVAL).
Local Abbreviation interval_of w :=
  (data (session (base (task w))) !! PING_INTERVAL).






End ping_task_quiet.



(** * Further properties of the ping task *)

Lemma started_addresses_snoc_start l a :
  started_addresses (l ++ [(a, Start)]) = started_addresses l ++ [a].
Proof.
  unfold started_addresses. rewrite filter_app, fmap_app.
  by rewrite filter_cons_True.
Qed.

Lemma started_addresses_stop_join l a :
  started_addresses (l ++ [(a, Stop); (a, Join)]) = started_addresses l.
Proof.
  unfold started_addresses. rewrite filter_app, fmap_app.
  rewrite filter_cons_False by done. rewrite filter_cons_False by done.
  by rewrite app_nil_r.
Qed.

Lemma started_address_called l a :
  a ∈ started_addresses l → ∃ j, l !! j = Some (a, Start).
Proof.
  unfold started_addresses. intros Ha.
  apply list_elem_of_fmap in Ha as ([b c] & -> & Hin).
  apply list_elem_of_filter in Hin as [Hc Hin]. simpl in Hc. subst c.
  by apply list_elem_of_lookup.
Qed.

Lemma after_start_snoc_start l a :
  after_start l → after_start (l ++ [(a, Start)]).
Proof.
  intros Hl i b c Hi Hc. apply lookup_app_Some in Hi as [Hi|[Hlen Hi]].
  - destruct (Hl i b c Hi Hc) as (j & Hj & Hs). exists j.
    split; [done|]. by apply lookup_app_l_Some.
  - destruct (i - length l)%nat as [|n]; simpl in Hi; [|done].
    by injection Hi as <- <-.
Qed.

Lemma after_start_stop_join l a :
  after_start l → a ∈ started_addresses l →
  after_start (l ++ [(a, Stop); (a, Join)]).
Proof.
  intros Hl Ha i b c Hi Hc. apply lookup_app_Some in Hi as [Hi|[Hlen Hi]].
  - destruct (Hl i b c Hi Hc) as (j & Hj & Hs). exists j.
    split; [done|]. by apply lookup_app_l_Some.
  - destruct (started_address_called l a Ha) as (j & Hj).
    assert (b = a) as ->.
    { by destruct (i - length l)%nat as [|[|n]]; simplify_eq/=. }
    exists j. split.
    + apply lookup_lt_Some in Hj. lia.
    + by apply lookup_app_l_Some.
Qed.

Lemma join_follows_stop_snoc_start l a :
  join_follows_stop l → join_follows_stop (l ++ [(a, Start)]).
Proof.
  intros Hl i b Hi. apply lookup_app_Some in Hi as [Hi|[Hlen Hi]].
  - destruct (Hl i b Hi) as (j & -> & Hs). exists j.
    split; [done|]. by apply lookup_app_l_Some.
  - destruct (i - length l)%nat as [|n]; simpl in Hi; done.
Qed.

Lemma join_follows_stop_stop_join l a :
  join_follows_stop l → join_follows_stop (l ++ [(a, Stop); (a, Join)]).
Proof.
  intros Hl i b Hi. apply lookup_app_Some in Hi as [Hi|[Hlen Hi]].
  - destruct (Hl i b Hi) as (j & -> & Hs). exists j.
    split; [done|]. by apply lookup_app_l_Some.
  - destruct (i - length l)%nat as [|[|n]] eqn:Hd; simpl in Hi; try done.
    injection Hi as <-. exists (length l). split; [lia|].
    by apply list_lookup_middle.
Qed.

Lemma alter_fixed {A} (f : A → A) (l : list A) i x :
  l !! i = Some x → f x = x → alter f i l = l.
Proof.
  intros Hi Hf. apply list_eq. intros j.
  destruct (decide (i = j)) as [<-|Hne].
  - by rewrite list_lookup_alter_eq, Hi; simpl; rewrite Hf.
  - by rewrite list_lookup_alter_ne.
Qed.

Section ping_task_more.
Variable PING_INTERVAL : string.

Local Abbreviation on_connected := (PingTask.on_connected PING_INTERVAL).
Local Abbreviation invoke := (PingTask.invoke PING_INTERVAL).
Local Abbreviation invoke_all := (PingTask.invoke_all PING_INTERVAL).
Local Abbreviation interval_of w :=
  (data (session (base (task w))) !! PING_INTERVAL).

Lemma init_log_ok s : pinger_log_ok (PingTask.init s).
Proof.
  by split_and!.
Qed.

Lemma spawned_log_ok v w : pinger_log_ok w → pinger_log_ok (spawned v w).
Proof.
  intros (Hst & Href & Has & Hjs). unfold spawned. split_and!; simpl.
  - rewrite started_addresses_snoc_start, Hst, length_app. simpl.
    by rewrite Nat.add_1_r, seq_S.
  - intros a [= <-]. rewrite length_app. simpl. lia.
  - by apply after_start_snoc_start.
  - by apply join_follows_stop_snoc_start.
Qed.

Lemma reset_log_ok w : pinger_log_ok w → pinger_log_ok (PingTask.reset w).
Proof.
  intros (Hst & Href & Has & Hjs). unfold PingTask.reset.
  destruct (db_pinger (task w)) as [a|] eqn:Ha; [|done].
  specialize (Href a eq_refl). split_and!; simpl.
  - by rewrite started_addresses_stop_join, !length_alter.
  - intros ? [= <-]. by rewrite !length_alter.
  - apply after_start_stop_join; [done|].
    rewrite Hst. apply elem_of_seq. lia.
  - by apply join_follows_stop_stop_join.
Qed.

Lemma invoke_log_ok m w w' :
  pinger_log_ok w → invoke m w = Ok w' → pinger_log_ok w'.
Proof.
  intros Hw. destruct m as [| |c]; simpl.
  - by intros [= <-].
  - rewrite on_connected_unfold.
    destruct (interval_of w) as [v|]; [|by intros [= <-]].
    pose proof (spawned_log_ok v w Hw) as Hnew.
    destruct v as [|b|z|s]; simpl.
    + by intros [= <-].
    + destruct (0 <? Z.b2z b); by intros [= <-].
    + destruct (0 <? z); by intros [= <-].
    + done.
  - destruct c as [k d|k v|k v|]; intros [= <-]; try exact Hw.
    by apply reset_log_ok.
Qed.

Lemma invoke_all_log_ok ms : ∀ w w',
  pinger_log_ok w → invoke_all ms w = Ok w' → pinger_log_ok w'.
Proof.
  induction ms as [|m ms IH]; intros w w' Hw; simpl.
  - by intros [= <-].
  - destruct (invoke m w) as [w1|e] eqn:Hm; [|done].
    apply IH. by eapply invoke_log_ok.
Qed.

(** X6: in every world reached from [__init__], [start()] has been called
    exactly once on every pinger object created, in the order of creation,
    and on nothing else. *)
Theorem pingers_started_once ms s w :
  invoke_all ms (PingTask.init s) = Ok w →
  started_addresses (calls w) = seq 0 (length (pingers w)).
Proof.
  intros Hrun.
  by destruct (invoke_all_log_ok ms _ _ (init_log_ok s) Hrun) as (? & _).
Qed.

(** X7: in every world reached from [__init__], each [stop()] and each
    [join()] was called on a pinger object that had been started before,
    and each [join()] comes right after a [stop()] on the same object: the
    task never waits for a pinger it has not started and told to stop. *)
Theorem stop_join_discipline ms s w :
  invoke_all ms (PingTask.init s) = Ok w →
  after_start (calls w) ∧ join_follows_stop (calls w).
Proof.
  intros Hrun.
  by destruct (invoke_all_log_ok ms _ _ (init_log_ok s) Hrun)
    as (_ & _ & ? & ?).
Qed.

(** X8: when [on_connected] returns, it has not changed the session or the
    bookkeeping of the task, and either nothing changed at all or exactly
    one pinger was created and started, with the interval found in the
    session data, for which [interval > 0] holds. *)
Theorem on_connected_returns w w' :
  on_connected w = Ok w' →
  base (task w') = base (task w) ∧
  (w' = w ∨ ∃ v, interval_of w = Some v ∧ py_gt_int v 0 = Ok true ∧
                 w' = spawned v w).
Proof.
  rewrite on_connected_unfold.
  destruct (interval_of w) as [v|] eqn:Hv; [|intros [= <-]; by split; [|left]].
  destruct v as [|b|z|s]; simpl.
  - intros [= <-]. by split; [|left].
  - destruct (0 <? Z.b2z b) eqn:Hb; intros [= <-]; (split; [done|]);
      [right|by left].
    exists (PyBool b). simpl. by rewrite Hb.
  - destruct (0 <? z) eqn:Hz; intros [= <-]; (split; [done|]);
      [right|by left].
    exists (PyInt z). simpl. by rewrite Hz.
  - done.
Qed.

Lemma reset_iter_calls w a p n :
  db_pinger (task w) = Some a → pingers w !! a = Some p →
  pinger_state p ≠ Idle →
  db_pinger (task (Nat.iter n PingTask.reset w)) = Some a ∧
  calls (Nat.iter n PingTask.reset w)
    = calls w ++ mjoin (replicate n [(a, Stop); (a, Join)]) ∧
  pingers (Nat.iter (S n) PingTask.reset w) = pingers (PingTask.reset w).
Proof.
  intros Ha Hp Hidle.
  assert (∀ u, db_pinger (task u) = Some a →
               pingers u !! a = Some (pinger_join (pinger_stop p)) →
               pingers (PingTask.reset u) = pingers u) as Hfix.
  { intros u Hu Hpu. unfold PingTask.reset. rewrite Hu. simpl.
    destruct (stop_join_state p Hidle) as [Hst Hjn].
    set (q := pinger_join (pinger_stop p)) in *.
    assert (pinger_stop q = q) as Hsq.
    { unfold pinger_stop. by rewrite Hst. }
    assert (pinger_join q = q) as Hjq.
    { unfold pinger_join. destruct q; simpl in *. by rewrite Hjn. }
    rewrite (alter_fixed pinger_stop _ a q) by done.
    by rewrite (alter_fixed pinger_join _ a q). }
  destruct (reset_with_pinger w a p Ha Hp) as (Ha1 & Hp1 & Hc1).
  induction n as [|n IH].
  - simpl. by rewrite app_nil_r.
  - destruct IH as (IHa & IHc & IHp).
    assert (pingers (Nat.iter (S n) PingTask.reset w) !! a
            = Some (pinger_join (pinger_stop p))) as Hpn by by rewrite IHp.
    assert (db_pinger (task (Nat.iter (S n) PingTask.reset w)) = Some a)
      as Han.
    { simpl. unfold PingTask.reset at 1. by rewrite IHa. }
    split_and!; [done| |].
    + change (Nat.iter (S n) PingTask.reset w)
        with (PingTask.reset (Nat.iter n PingTask.reset w)).
      unfold PingTask.reset at 1. rewrite IHa. cbn [calls].
      rewrite IHc, replicate_S_end, join_app. simpl.
      by rewrite ?app_nil_r, app_assoc.
    + change (Nat.iter (S (S n)) PingTask.reset w)
        with (PingTask.reset (Nat.iter (S n) PingTask.reset w)).
      rewrite (Hfix _ Han Hpn). done.
Qed.

(** X9: every [reset] of a task that refers to a pinger calls [stop()] and
    [join()] on that pinger again: after [n] resets the log has [n] such
    pairs; the first [reset] stops and joins the pinger, the later ones
    leave every pinger object as it is. *)
Theorem reset_repeats_stop_join ms s w a n :
  invoke_all ms (PingTask.init s) = Ok w →
  db_pinger (task w) = Some a →
  db_pinger (task (Nat.iter n PingTask.reset w)) = Some a ∧
  calls (Nat.iter n PingTask.reset w)
    = calls w ++ mjoin (replicate n [(a, Stop); (a, Join)]) ∧
  pingers (Nat.iter (S n) PingTask.reset w) = pingers (PingTask.reset w).
Proof.
  intros Hrun Ha.
  pose proof (invoke_all_started _ ms _ _ (init_started s) Hrun) as Hs.
  destruct (Hs a Ha) as (p & Hp & Hidle).
  by apply (reset_iter_calls w a p n).
Qed.

Lemma spawned_iter v w n :
  base (task (Nat.iter n (spawned v) w)) = base (task w) ∧
  pingers (Nat.iter n (spawned v) w)
    = pingers w ++ replicate n (mkPinger v Running false) ∧
  db_pinger (task (Nat.iter (S n) (spawned v) w))
    = Some (length (pingers w) + n)%nat.
Proof.
  induction n as [|n (IHb & IHp & IHr)].
  - simpl. by rewrite app_nil_r, Nat.add_0_r.
  - split_and!.
    + done.
    + change (Nat.iter (S n) (spawned v) w)
        with (spawned v (Nat.iter n (spawned v) w)).
      unfold spawned at 1. cbn [pingers].
      by rewrite IHp, replicate_S_end, app_assoc.
    + change (Nat.iter (S (S n)) (spawned v) w)
        with (spawned v (Nat.iter (S n) (spawned v) w)).
      unfold spawned at 1. cbn [task db_pinger].
      change (Nat.iter (S n) (spawned v) w)
        with (spawned v (Nat.iter n (spawned v) w)).
      unfold spawned at 1. cbn [pingers].
      rewrite IHp, !length_app, length_replicate. simpl. f_equal. lia.
Qed.

Lemma invoke_all_on_connected_iter v n : ∀ w ms,
  interval_of w = Some v → py_gt_int v 0 = Ok true →
  invoke_all (replicate n OnConnected ++ ms) w
    = invoke_all ms (Nat.iter n (spawned v) w).
Proof.
  induction n as [|n IH]; intros w ms Hv Hpos; [done|].
  cbn [replicate app PingTask.invoke_all PingTask.invoke].
  assert (on_connected w = Ok (spawned v w)) as ->.
  { rewrite on_connected_unfold, Hv, Hpos. by destruct v. }
  rewrite IH by done. by rewrite <- Nat.iter_succ_r.
Qed.

(** X10: on a new task whose session has a strictly positive ping
    interval, [n + 1] calls of [on_connected] followed by [reset] leave
    [n + 1] pinger objects: the last one stopped and joined, the [n] earlier
    ones still running. *)
Theorem repeated_on_connected_leaves_running s v n :
  data s !! PING_INTERVAL = Some v →
  py_gt_int v 0 = Ok true →
  ∃ w, invoke_all (replicate (S n) OnConnected ++ [Do Reset])
                  (PingTask.init s) = Ok w ∧
       pingers w = replicate n (mkPinger v Running false)
                     ++ [mkPinger v Stopped true] ∧
       db_pinger (task w) = Some n.
Proof.
  intros Hv Hpos.
  rewrite (invoke_all_on_connected_iter v (S n)) by done.
  set (w := Nat.iter (S n) (spawned v) (PingTask.init s)).
  assert (db_pinger (task w) = Some n) as Hr
    by apply (spawned_iter v (PingTask.init s) n).
  assert (pingers w = replicate (S n) (mkPinger v Running false)) as Hp
    by apply (spawned_iter v (PingTask.init s) (S n)).
  exists (PingTask.reset w). split; [done|].
  unfold PingTask.reset. rewrite Hr. cbn [pingers task db_pinger].
  split; [|done]. rewrite Hp, replicate_S_end.
  assert (n = length (replicate n (mkPinger v Running false)) + 0)%nat as Hn
    by by rewrite length_replicate, Nat.add_0_r.
  rewrite Hn at 1 2.
  by rewrite !alter_app_r.
Qed.

End ping_task_more.

(** * Concrete runs for the further properties *)

Lemma pingers_started_once_witness :
  let s := mkSession ∅ {[ "ping-interval"%string := PyInt 5 ]} in
  let ms := [OnConnected; Do Reset; OnConnected] in
  ∃ w, PingTask.invoke_all "ping-interval" ms (PingTask.init s) = Ok w ∧
       started_addresses (calls w) = seq 0 (length (pingers w)).
Proof.
  intros s ms. eexists. split; [by vm_compute|].
  apply (pingers_started_once "ping-interval" ms s). by vm_compute.
Defined.

Lemma stop_join_discipline_witness :
  let s := mkSession ∅ {[ "ping-interval"%string := PyInt 5 ]} in
  let ms := [OnConnected; Do Reset; OnConnected; Do Reset] in
  ∃ w, PingTask.invoke_all "ping-interval" ms (PingTask.init s) = Ok w ∧
       after_start (calls w) ∧ join_follows_stop (calls w).
Proof.
  intros s ms. eexists. split; [by vm_compute|].
  apply (stop_join_discipline "ping-interval" ms s). by vm_compute.
Defined.

Lemma on_connected_returns_witness :
  let w := PingTask.init (mkSession ∅ {[ "ping-interval"%string := PyInt 5 ]}) in
  base (task (spawned (PyInt 5) w)) = base (task w) ∧
  (spawned (PyInt 5) w = w ∨
   ∃ v, data (session (base (task w))) !! "ping-interval"%string = Some v ∧
        py_gt_int v 0 = Ok true ∧ spawned (PyInt 5) w = spawned v w).
Proof.
  intros w.
  apply (on_connected_returns "ping-interval" w (spawned (PyInt 5) w)).
  reflexivity.
Defined.

Lemma reset_repeats_stop_join_witness :
  let s := mkSession ∅ {[ "ping-interval"%string := PyInt 5 ]} in
  let w := mkWorld (mkPingTask (init s) (Some 0%nat))
                   [mkPinger (PyInt 5) Running false] [(0%nat, Start)] in
  db_pinger (task (Nat.iter 3 PingTask.reset w)) = Some 0%nat ∧
  calls (Nat.iter 3 PingTask.reset w)
    = calls w ++ mjoin (replicate 3 [(0%nat, Stop); (0%nat, Join)]) ∧
  pingers (Nat.iter 4 PingTask.reset w) = pingers (PingTask.reset w).
Proof.
  intros s w.
  apply (reset_repeats_stop_join "ping-interval" [OnConnected] s w 0%nat 3%nat).
  - by vm_compute.
  - reflexivity.
Defined.

Lemma repeated_on_connected_leaves_running_witness :
  let s := mkSession ∅ {[ "ping-interval"%string := PyInt 5 ]} in
  ∃ w, PingTask.invoke_all "ping-interval"
         (replicate 3 OnConnected ++ [Do Reset]) (PingTask.init s) = Ok w ∧
       pingers w = replicate 2 (mkPinger (PyInt 5) Running false)
                     ++ [mkPinger (PyInt 5) Stopped true] ∧
       db_pinger (task w) = Some 2%nat.
Proof.
  intros s.
  apply (repeated_on_connected_leaves_running "ping-interval" s (PyInt 5) 2%nat).
  - reflexivity.
  - reflexivity.
Defined.

(** * [configure] of [mrs_plugin/general.py] *)

Lemma list_lt_irrefl a : MrsGeneral.list_lt a a = false.
Proof.
  induction a as [|x a IH]; [done|]. simpl.
  by rewrite Z.ltb_irrefl.
Qed.

Lemma list_lt_total a : ∀ b,
  MrsGeneral.list_lt a b = false → MrsGeneral.list_lt b a = false → a = b.
Proof.
  induction a as [|x a IH]; intros [|y b]; simpl; try done.
  destruct (x <? y) eqn:Hxy; [done|].
  destruct (y <? x) eqn:Hyx; [done|].
  intros Hab Hba. apply Z.ltb_ge in Hxy, Hyx.
  assert (x = y) as -> by lia. f_equal. by apply IH.
Qed.

Lemma list_lt_head_lt x a y b :
  x < y →
  MrsGeneral.list_lt (x :: a) (y :: b) = true ∧
  MrsGeneral.list_lt (y :: b) (x :: a) = false.
Proof.
  intros Hlt. simpl.
  assert ((x <? y) = true) as -> by by apply Z.ltb_lt.
  assert ((y <? x) = false) as -> by (apply Z.ltb_ge; lia).
  done.
Qed.

Lemma list_lt_asym a : ∀ b,
  MrsGeneral.list_lt a b = true → MrsGeneral.list_lt b a = false.
Proof.
  induction a as [|x a IH]; intros [|y b]; simpl; try done.
  destruct (x <? y) eqn:Hxy.
  - intros _. apply Z.ltb_lt in Hxy.
    assert ((y <? x) = false) as -> by (apply Z.ltb_ge; lia). done.
  - destruct (y <? x) eqn:Hyx; [done|]. apply IH.
Qed.

Section mrs_general.
Variable DB_VERSION : list Z.

Import MrsGeneral.

Local Abbreviation configure := (MrsGeneral.configure DB_VERSION).
Local Abbreviation configure_schema := (MrsGeneral.configure_schema DB_VERSION).

(** The second part of [configure] never fails, makes no call on the
    schema, and neither prompts nor, in non-interactive mode, prints. *)
Lemma configure_enable_ok env enable_mrs :
  ∃ tr, configure_enable env enable_mrs
          = (tr, inr match enable_mrs with
                     | PyNone => default (PyInt 0) (config_row env)
                     | _ => enable_mrs
                     end) ∧
        Forall (λ a, is_schema_action a = false ∧ a ≠ Prompt ∧
                     (interactive env = false → ∀ m, a ≠ Print m)) tr.
Proof.
  unfold configure_enable, bind, when, act, ret.
  destruct enable_mrs as [|b|z|s]; destruct (interactive env); simpl;
    eexists; (split; [done|]); repeat constructor; done.
Qed.

(** [configure] from the outcome of its first part. *)
Lemma configure_from_schema env enable_mrs allow :
  configure env enable_mrs allow =
    match configure_schema env allow with
    | (tr, inl e) =>
        ((if interactive env then [Print MsgChecking] else []) ++ tr, inl e)
    | (tr, inr schema_changed) =>
        ((if interactive env then [Print MsgChecking] else []) ++ tr
           ++ (configure_enable env enable_mrs).1,
         inr (if interactive env then None
              else Some {[ "schema_changed"%string := schema_changed;
                           "mrs_enabled"%string :=
                             match enable_mrs with
                             | PyNone => default (PyInt 0) (config_row env)
                             | _ => enable_mrs
                             end ]}))
    end.
Proof.
  destruct (configure_enable_ok env enable_mrs) as (tr2 & He & _).
  unfold MrsGeneral.configure.
  destruct (configure_schema env allow) as [tr [e|sc]] eqn:Hs;
    unfold bind, when, act, ret; rewrite ?He;
    destruct (interactive env); simpl; by rewrite ?app_nil_r.
Qed.

(** The first part of [configure], case by case. *)
Lemma configure_schema_unfold env allow :
  configure_schema env allow =
    if schema_exists env then
      if list_lt DB_VERSION (current_db_version env) then ([], inl Unsupported)
      else
        match current_db_version env, DB_VERSION with
        | [], _ | _ :: _, [] => ([], inl IndexError)
        | c0 :: _, d0 :: _ =>
            if c0 <? d0 then
              if allow then
                (CreateSchema true
                   :: (if interactive env then [Print MsgRecreated] else []),
                 inr (PyBool true))
              else ([], inl NeedsRecreation)
            else if list_lt (current_db_version env) DB_VERSION then
              if interactive env then
                if String.eqb (answer env) "n" then ([Prompt], inl Outdated)
                else ([Prompt;
                       UpdateSchema (version_string (current_db_version env));
                       Print MsgConfigured],
                      inr (schema_updated env))
              else ([UpdateSchema (version_string (current_db_version env))],
                    inr (schema_updated env))
            else ((if interactive env then [Print MsgWellConfigured] else []),
                  inr (schema_updated env))
        end
    else
      (CreateSchema false
         :: (if interactive env then [Print MsgCreated] else []),
       inr (PyBool true)).
Proof.
  unfold MrsGeneral.configure_schema.
  destruct (schema_exists env); [|by destruct (interactive env)].
  destruct (list_lt DB_VERSION (current_db_version env)); [done|].
  destruct (current_db_version env) as [|c0 cr] eqn:Hc; [done|].
  destruct DB_VERSION as [|d0 dr] eqn:Hd; [done|].
  unfold index0, bind, when, act, ret, raise. cbn [fst snd app].
  destruct (c0 <? d0).
  { destruct allow; [|done]. by destruct (interactive env). }
  destruct (list_lt (c0 :: cr) (d0 :: dr)).
  - destruct (interactive env); [|done]. cbn [fst snd app].
    by destruct (String.eqb (answer env) "n").
  - by destruct (interactive env).
Qed.

Lemma schema_actions_quiet tr :
  Forall (λ a, is_schema_action a = false) tr → schema_actions tr = [].
Proof.
  unfold schema_actions. induction 1 as [|a tr Ha _ IH]; [done|].
  rewrite filter_cons_False by (rewrite Ha; intros []). done.
Qed.

(** What the whole of [configure] adds to its first part leaves the calls on
    the schema as they are. *)
Lemma configure_schema_part env enable_mrs allow :
  schema_actions (configure env enable_mrs allow).1
    = schema_actions (configure_schema env allow).1 ∧
  (CreateSchema true ∈ (configure env enable_mrs allow).1 ↔
   CreateSchema true ∈ (configure_schema env allow).1) ∧
  ((∃ r, (configure env enable_mrs allow).2 = inr r) ↔
   (∃ sc, (configure_schema env allow).2 = inr sc)).
Proof.
  rewrite configure_from_schema.
  destruct (configure_enable_ok env enable_mrs) as (tr2 & He & Hq).
  rewrite He. cbn [fst].
  assert (schema_actions tr2 = []) as Hq2.
  { apply schema_actions_quiet. eapply Forall_impl; [exact Hq|]. by intros a [? _]. }
  assert (CreateSchema true ∉ tr2) as Hno.
  { intros Hin. eapply Forall_forall in Hq as [Hq _]; [|exact Hin]. done. }
  set (pre := if interactive env then [Print MsgChecking] else []).
  assert (schema_actions pre = [] ∧ CreateSchema true ∉ pre) as [Hp1 Hp2].
  { unfold pre. destruct (interactive env); split; try done.
    - rewrite list_elem_of_singleton. done.
    - apply not_elem_of_nil. }
  destruct (configure_schema env allow) as [tr [e|sc]]; cbn [fst snd].
  - unfold schema_actions in *. rewrite filter_app, Hp1. split_and!; [done| |].
    + rewrite elem_of_app. tauto.
    + split; by intros [? ?].
  - unfold schema_actions in *. rewrite !filter_app, Hp1, Hq2, app_nil_r.
    split_and!; [done| |].
    + rewrite !elem_of_app. tauto.
    + split; intros _; by eexists.
Qed.

(** X11: when the metadata schema exists, [configure] ends without
    exception and without creating, recreating or updating the schema
    exactly when the schema version of the database equals [DB_VERSION]
    (and is not the empty list). *)
Theorem configure_unchanged_iff_same_version env enable_mrs allow :
  schema_exists env = true →
  ((∃ r, (configure env enable_mrs allow).2 = inr r) ∧
   schema_actions (configure env enable_mrs allow).1 = [])
  ↔ (current_db_version env = DB_VERSION ∧ DB_VERSION ≠ []).
Proof.
  intros Hex.
  destruct (configure_schema_part env enable_mrs allow) as (-> & _ & ->).
  rewrite configure_schema_unfold, Hex.
  split.
  - intros [[sc Hsc] Hact]. revert Hsc Hact.
    destruct (list_lt DB_VERSION (current_db_version env)) eqn:H1; [done|].
    destruct (current_db_version env) as [|c0 cr] eqn:Hc; [done|].
    destruct DB_VERSION as [|d0 dr] eqn:Hd; [done|].
    destruct (c0 <? d0); [by destruct allow|].
    destruct (list_lt (c0 :: cr) (d0 :: dr)) eqn:H2.
    + destruct (interactive env); [|done].
      by destruct (String.eqb (answer env) "n").
    + intros _ _. split; [|done]. by apply list_lt_total.
  - intros [-> Hne]. rewrite list_lt_irrefl.
    destruct DB_VERSION as [|d0 dr]; [done|].
    rewrite Z.ltb_irrefl.
    split; [by eexists|]. by destruct (interactive env).
Qed.

(** X12: [configure] drops and recreates the metadata schema exactly when
    the schema exists, [allow_recreation_on_major_upgrade] is set, and the
    first number of the schema version of the database is smaller than the
    first number of [DB_VERSION]. *)
Theorem configure_drops_schema_iff env enable_mrs allow :
  CreateSchema true ∈ (configure env enable_mrs allow).1
  ↔ (schema_exists env = true ∧ allow = true ∧
     ∃ c0 cr d0 dr, current_db_version env = c0 :: cr ∧
                    DB_VERSION = d0 :: dr ∧ c0 < d0).
Proof.
  destruct (configure_schema_part env enable_mrs allow) as (_ & -> & _).
  rewrite configure_schema_unfold.
  split.
  - destruct (schema_exists env).
    2:{ cbn [fst]. rewrite elem_of_cons.
        intros [?|Hin]; [done|]. destruct (interactive env);
          [by apply list_elem_of_singleton in Hin|by apply elem_of_nil in Hin]. }
    destruct (list_lt DB_VERSION (current_db_version env)).
    { cbn [fst]. by intros ?%elem_of_nil. }
    destruct (current_db_version env) as [|c0 cr].
    { cbn [fst]. by intros ?%elem_of_nil. }
    destruct DB_VERSION as [|d0 dr].
    { cbn [fst]. by intros ?%elem_of_nil. }
    destruct (c0 <? d0) eqn:Hlt.
    + destruct allow; [|cbn [fst]; by intros ?%elem_of_nil].
      intros _. split_and!; [done|done|].
      exists c0, cr, d0, dr. split_and!; [done|done|]. by apply Z.ltb_lt.
    + destruct (list_lt (c0 :: cr) (d0 :: dr)).
      * destruct (interactive env); [destruct (String.eqb (answer env) "n")|];
          cbn [fst]; rewrite ?elem_of_cons, elem_of_nil; intuition discriminate.
      * destruct (interactive env); cbn [fst];
          rewrite ?elem_of_cons, elem_of_nil; intuition discriminate.
  - intros (-> & -> & c0 & cr & d0 & dr & Hc & Hd & Hlt).
    rewrite Hc, Hd.
    destruct (list_lt_head_lt c0 cr d0 dr Hlt) as [_ ->].
    assert ((c0 <? d0) = true) as -> by by apply Z.ltb_lt.
    cbn [fst]. apply elem_of_cons. by left.
Qed.

(** X13: when the metadata schema exists and its version is greater than
    [DB_VERSION], [configure] raises the exception for an unsupported
    version before any call that changes the schema or the configuration;
    all it has done is print its first message in interactive mode. *)
Theorem configure_rejects_newer_schema env enable_mrs allow :
  schema_exists env = true →
  list_lt DB_VERSION (current_db_version env) = true →
  configure env enable_mrs allow
    = ((if interactive env then [Print MsgChecking] else []), inl Unsupported).
Proof.
  intros Hex Hlt.
  rewrite configure_from_schema, configure_schema_unfold, Hex, Hlt.
  by rewrite app_nil_r.
Qed.

(** X14: in non-interactive mode [configure] neither prints nor prompts. *)
Theorem configure_non_interactive_silent env enable_mrs allow :
  interactive env = false →
  ∀ a, a ∈ (configure env enable_mrs allow).1 →
       a ≠ Prompt ∧ (∀ m, a ≠ Print m).
Proof.
  intros Hni a.
  rewrite configure_from_schema.
  destruct (configure_enable_ok env enable_mrs) as (tr2 & He & Hq).
  assert (a ∈ tr2 → a ≠ Prompt ∧ (∀ m, a ≠ Print m)) as H2.
  { intros Hin. eapply Forall_forall in Hq as (_ & ? & Hp); [|exact Hin].
    split; [done|]. by apply Hp. }
  assert (a ∈ (configure_schema env allow).1 →
          a ≠ Prompt ∧ (∀ m, a ≠ Print m)) as H1.
  { rewrite configure_schema_unfold, Hni.
    destruct (schema_exists env).
    2:{ cbn [fst]. by intros ->%list_elem_of_singleton. }
    destruct (list_lt DB_VERSION (current_db_version env)).
    { cbn [fst]. by intros ?%elem_of_nil. }
    destruct (current_db_version env) as [|c0 cr].
    { cbn [fst]. by intros ?%elem_of_nil. }
    destruct DB_VERSION as [|d0 dr].
    { cbn [fst]. by intros ?%elem_of_nil. }
    destruct (c0 <? d0).
    { destruct allow; cbn [fst];
        [by intros ->%list_elem_of_singleton|by intros ?%elem_of_nil]. }
    destruct (list_lt (c0 :: cr) (d0 :: dr)); cbn [fst];
      [by intros ->%list_elem_of_singleton|by intros ?%elem_of_nil]. }
  rewrite He, Hni in *.
  destruct (configure_schema env allow) as [tr [e|sc]]; cbn [fst] in *.
  - rewrite app_nil_l. exact H1.
  - rewrite app_nil_l, elem_of_app. intros [?|?]; auto.
Qed.

Lemma creates_schema_quiet tr :
  Forall (λ a, is_schema_action a = false) tr → creates_schema tr = false.
Proof.
  unfold creates_schema. induction 1 as [|a tr Ha _ IH]; [done|].
  simpl. rewrite IH. by destruct a.
Qed.

Lemma configure_schema_changed env allow tr sc :
  configure_schema env allow = (tr, inr sc) →
  sc = if creates_schema tr then PyBool true else schema_updated env.
Proof.
  rewrite configure_schema_unfold.
  destruct (schema_exists env); [|by intros [= <- <-]].
  destruct (list_lt DB_VERSION (current_db_version env)); [done|].
  destruct (current_db_version env) as [|c0 cr]; [done|].
  destruct DB_VERSION as [|d0 dr]; [done|].
  destruct (c0 <? d0).
  { destruct allow; [|done]. by intros [= <- <-]. }
  destruct (list_lt (c0 :: cr) (d0 :: dr)).
  - destruct (interactive env); [|by intros [= <- <-]].
    destruct (String.eqb (answer env) "n"); [done|]. by intros [= <- <-].
  - destruct (interactive env); by intros [= <- <-].
Qed.

(** X15: when [configure] returns, it returns [None] in interactive mode
    and otherwise a dictionary with the two keys [schema_changed] and
    [mrs_enabled]: [schema_changed] is [True] when the schema was created or
    recreated and otherwise, also after an update of the schema, the value
    of [get_metadata_schema_updated()]; [mrs_enabled] is the argument
    [enable_mrs] when it is not [None], else the stored setting, 0 when
    there is no configuration row. *)
Theorem configure_return_value env enable_mrs allow r :
  (configure env enable_mrs allow).2 = inr r →
  r = if interactive env then None
      else Some {[ "schema_changed"%string :=
                     (if creates_schema (configure env enable_mrs allow).1
                      then PyBool true else schema_updated env);
                   "mrs_enabled"%string :=
                     match enable_mrs with
                     | PyNone => default (PyInt 0) (config_row env)
                     | _ => enable_mrs
                     end ]}.
Proof.
  rewrite configure_from_schema.
  destruct (configure_enable_ok env enable_mrs) as (tr2 & He & Hq).
  assert (creates_schema tr2 = false) as Hq2.
  { apply creates_schema_quiet. eapply Forall_impl; [exact Hq|]. by intros a [? _]. }
  rewrite He.
  destruct (configure_schema env allow) as [tr [e|sc]] eqn:Hs; [done|].
  cbn [fst snd]. intros [= <-].
  destruct (interactive env); [done|].
  rewrite (configure_schema_changed env allow tr sc Hs).
  unfold creates_schema in *.
  by rewrite app_nil_l, existsb_app, Hq2, orb_false_r.
Qed.

(** X16: when the schema of the database has the first version number of
    [DB_VERSION] and a smaller version, [configure] updates the schema
    once, with the dotted version of the database as argument, and goes on;
    only in interactive mode and only when the answer to the prompt is [n]
    it raises the exception for an outdated schema instead, having changed
    nothing.  Non-interactive calls update without asking. *)
Theorem configure_minor_upgrade env enable_mrs allow c cr dr :
  schema_exists env = true →
  current_db_version env = c :: cr →
  DB_VERSION = c :: dr →
  list_lt cr dr = true →
  if interactive env && String.eqb (answer env) "n"
  then configure env enable_mrs allow
         = ([Print MsgChecking; Prompt], inl Outdated)
  else schema_actions (configure env enable_mrs allow).1
         = [UpdateSchema (version_string (c :: cr))] ∧
       ∃ r, (configure env enable_mrs allow).2 = inr r.
Proof.
  intros Hex Hc Hd Hlt.
  assert (list_lt DB_VERSION (current_db_version env) = false) as H1.
  { rewrite Hc, Hd. simpl. rewrite Z.ltb_irrefl. by apply list_lt_asym. }
  assert (list_lt (current_db_version env) DB_VERSION = true) as H2.
  { rewrite Hc, Hd. simpl. by rewrite Z.ltb_irrefl. }
  assert (configure_schema env allow =
          if interactive env then
            if String.eqb (answer env) "n" then ([Prompt], inl Outdated)
            else ([Prompt; UpdateSchema (version_string (c :: cr));
                   Print MsgConfigured], inr (schema_updated env))
          else ([UpdateSchema (version_string (c :: cr))],
                inr (schema_updated env))) as Hs.
  { rewrite configure_schema_unfold, Hex, H1.
    rewrite Hc in *. rewrite Hd in *. by rewrite Z.ltb_irrefl, H2. }
  destruct (interactive env) eqn:Hi; cbn [andb].
  - destruct (String.eqb (answer env) "n") eqn:Ha.
    + by rewrite configure_from_schema, Hs, Hi.
    + destruct (configure_schema_part env enable_mrs allow) as (-> & _ & ->).
      rewrite Hs. split; [done|by eexists].
  - destruct (configure_schema_part env enable_mrs allow) as (-> & _ & ->).
    rewrite Hs. split; [done|by eexists].
Qed.

End mrs_general.

(** * Concrete runs of [configure] *)

Lemma configure_unchanged_iff_same_version_witness :
  let env := MrsGeneral.mkEnv false true (PyBool false) [2; 1; 0] ""
                              (Some (PyInt 1)) in
  ((∃ r, (MrsGeneral.configure [2; 1; 0] env PyNone false).2 = inr r) ∧
   schema_actions (MrsGeneral.configure [2; 1; 0] env PyNone false).1 = [])
  ↔ (MrsGeneral.current_db_version env = [2; 1; 0] ∧ [2; 1; 0] ≠ []).
Proof.
  intros env.
  apply (configure_unchanged_iff_same_version [2; 1; 0] env PyNone false).
  reflexivity.
Defined.

Lemma configure_rejects_newer_schema_witness :
  let env := MrsGeneral.mkEnv true true (PyBool false) [3; 0; 0] "y" None in
  MrsGeneral.configure [2; 1; 0] env (PyBool true) true
    = ([MrsGeneral.Print MrsGeneral.MsgChecking], inl MrsGeneral.Unsupported).
Proof.
  intros env.
  apply (configure_rejects_newer_schema [2; 1; 0] env (PyBool true) true);
    reflexivity.
Defined.

Lemma configure_non_interactive_silent_witness :
  let env := MrsGeneral.mkEnv false true (PyBool false) [2; 0; 1] "n" None in
  MrsGeneral.UpdateSchema "2.0.1" ≠ MrsGeneral.Prompt ∧
  (∀ m, MrsGeneral.UpdateSchema "2.0.1" ≠ MrsGeneral.Print m).
Proof.
  intros env.
  apply (configure_non_interactive_silent [2; 1; 0] env (PyBool true) false).
  - reflexivity.
  - vm_compute. apply elem_of_cons. by left.
Defined.

Lemma configure_return_value_witness :
  let env := MrsGeneral.mkEnv false true (PyBool false) [2; 0; 1] "n"
                              (Some (PyInt 1)) in
  Some ({[ "schema_changed"%string := PyBool false;
           "mrs_enabled"%string := PyInt 1 ]} : gmap string PyVal)
  = (if MrsGeneral.interactive env then None
     else Some {[ "schema_changed"%string :=
                    (if creates_schema
                          (MrsGeneral.configure [2; 1; 0] env PyNone false).1
                     then PyBool true else MrsGeneral.schema_updated env);
                  "mrs_enabled"%string :=
                    default (PyInt 0) (MrsGeneral.config_row env) ]}).
Proof.
  intros env.
  apply (configure_return_value [2; 1; 0] env PyNone false).
  by vm_compute.
Defined.

Lemma configure_minor_upgrade_witness :
  let env := MrsGeneral.mkEnv true true (PyBool false) [2; 0; 1] "no" None in
  schema_actions (MrsGeneral.configure [2; 1; 0] env PyNone false).1
    = [MrsGeneral.UpdateSchema (MrsGeneral.version_string [2; 0; 1])] ∧
  ∃ r, (MrsGeneral.configure [2; 1; 0] env PyNone false).2 = inr r.
Proof.
  intros env.
  apply (configure_minor_upgrade [2; 1; 0] env PyNone false 2 [0; 1] [1; 0]);
    reflexivity.
Defined.
